(** * A 2D procedural noise library: hash kernel, value noise, fBm,
      gradient (Perlin) noise and cellular (Worley) noise.

    Shallow embedding of [noise.py].

    Modelling conventions.
    - Python [int] is unbounded: it is [Z]; [&], [^], [>>] are [Z.land],
      [Z.lxor], [Z.shiftr] (two's complement on negative numbers, as in
      Python).
    - Python [float] is idealised as a real number ([R]): every operation is
      exact, there is no rounding, no infinity and no NaN.  This is the
      reading of the specification ("pure function of reals").  Results that
      depend on binary64 rounding are outside this model.
    - [math.floor] is the integer part [Int_part]; an [int] mixed into float
      arithmetic is injected with [IZR].
    - The only exception the modelled code can raise is the
      [ZeroDivisionError] of a float division; it is the [Raise] branch of
      [result]. *)

From Stdlib Require Import ZArith Reals Lra Lia Psatz List Bool.
From Stdlib Require Strings.String Strings.Ascii Strings.Byte.
From Stdlib Require Numbers.DecimalString.
Import ListNotations.

(** ** Hash kernel (integers) *)

Module Hash.
Local Open Scope Z_scope.

Definition mask32 : Z := 0xFFFFFFFF.

(** [hash32], line by line. *)
Definition hash32 (x : Z) : Z :=
  let x := Z.land x mask32 in
  let x := Z.lxor x (Z.shiftr x 16) in
  let x := Z.land (x * 0x7feb352d) mask32 in
  let x := Z.lxor x (Z.shiftr x 15) in
  let x := Z.land (x * 0x846ca68b) mask32 in
  let x := Z.lxor x (Z.shiftr x 16) in
  Z.land x mask32.

Definition hash2d (x y seed : Z) : Z :=
  let h := Z.land (x + seed * 0x9e3779b1) mask32 in
  let k := Z.land (Z.lxor y (seed * 0x85ebca6b)) mask32 in
  let h := hash32 h in
  let k := hash32 k in
  hash32 (Z.lxor h k).

(** The avalanche mix as the specification words it: every step is an
    operation on a 32-bit quantity, the multiplications are modulo 2^32. *)
Definition xorshift_right (n v : Z) : Z := Z.lxor v (Z.shiftr v n).
Definition mul_mod32 (c v : Z) : Z := (v * c) mod 2 ^ 32.

Definition hash32_reference (v : Z) : Z :=
  xorshift_right 16
    (mul_mod32 0x846ca68b
       (xorshift_right 15
          (mul_mod32 0x7feb352d
             (xorshift_right 16 (v mod 2 ^ 32))))).

End Hash.
Export Hash.

(** ** Scalar mapping and interpolation (reals) *)

Local Open Scope R_scope.

Definition to_unit_double (v : Z) : R := IZR v / IZR 0xFFFFFFFF.

Definition lerp (a b t : R) : R := a + t * (b - a).

Definition fade (t : R) : R := t * t * t * (t * (t * 6 - 15) + 10).

(** [math.floor] *)
Definition floor (x : R) : Z := Int_part x.

(** The builtins [min(a, b)] and [max(a, b)]: the first argument is kept
    unless the second one is strictly smaller (strictly larger). *)
Definition py_min (a b : R) : R := if Rlt_dec b a then b else a.
Definition py_max (a b : R) : R := if Rlt_dec a b then b else a.

(** Outcome of a call: a value, or the exception it raises. *)
Inductive exn : Type := ZeroDivisionError.

Inductive result (A : Type) : Type :=
| Return (a : A)
| Raise (e : exn).
Arguments Return {A} a.
Arguments Raise {A} e.

(** ** Value noise *)

Module ValueNoise2D.

Record t : Type := { seed : Z }.

(** [__init__] *)
Definition init (seed : Z) : t := {| seed := seed |}.

Definition _lattice_value (self : t) (ix iy : Z) : R :=
  let h := hash2d ix iy (seed self) in
  to_unit_double h.

Definition sample (self : t) (x y : R) : R :=
  let x0 := floor x in
  let y0 := floor y in
  let x1 := (x0 + 1)%Z in
  let y1 := (y0 + 1)%Z in
  let fx := x - IZR x0 in
  let fy := y - IZR y0 in
  let v00 := _lattice_value self x0 y0 in
  let v10 := _lattice_value self x1 y0 in
  let v01 := _lattice_value self x0 y1 in
  let v11 := _lattice_value self x1 y1 in
  let u := fade fx in
  let v := fade fy in
  let vx0 := lerp v00 v10 u in
  let vx1 := lerp v01 v11 u in
  lerp vx0 vx1 v.

End ValueNoise2D.

(** ** fBm over value noise *)

Module FBMValueNoise2D.

Record t : Type := {
  base : ValueNoise2D.t;
  octaves : Z;
  lacunarity : R;
  gain : R
}.

(** [__init__]: stores its arguments, no check of any of them. *)
Definition init (seed octaves : Z) (lacunarity gain : R) : t :=
  {| base := ValueNoise2D.init seed;
     octaves := octaves;
     lacunarity := lacunarity;
     gain := gain |}.

(** The four local variables of [sample]. *)
Record locals : Type := {
  amp : R;
  freq : R;
  total : R;
  amp_sum : R
}.

Definition locals0 : locals :=
  {| amp := 1; freq := 1; total := 0; amp_sum := 0 |}.

(** One pass through the body of the [for] loop. *)
Definition octave (self : t) (x y : R) (s : locals) : locals :=
  let total' :=
    total s + ValueNoise2D.sample (base self) (x * freq s) (y * freq s) * amp s in
  let amp_sum' := amp_sum s + amp s in
  let freq' := freq s * lacunarity self in
  let amp' := amp s * gain self in
  {| amp := amp'; freq := freq'; total := total'; amp_sum := amp_sum' |}.

(** [for _ in range(n)]: [n] passes. *)
Fixpoint octave_loop (self : t) (x y : R) (n : nat) (s : locals) : locals :=
  match n with
  | O => s
  | S n' => octave_loop self x y n' (octave self x y s)
  end.

(** [range(self.octaves)] is empty when [octaves <= 0]. *)
Definition run (self : t) (x y : R) : locals :=
  octave_loop self x y (Z.to_nat (octaves self)) locals0.

Definition sample (self : t) (x y : R) : result R :=
  let s := run self x y in
  if Req_dec_T (amp_sum s) 0 then Raise ZeroDivisionError
  else Return (total s / amp_sum s).

End FBMValueNoise2D.

(** ** Gradient (Perlin) noise *)

Module PerlinNoise2D.

Record t : Type := { seed : Z }.

Definition init (seed : Z) : t := {| seed := seed |}.

Definition _gradients : list (R * R) :=
  [ (1.0, 0.0);
    (-1.0, 0.0);
    (0.0, 1.0);
    (0.0, -1.0);
    (0.70710678, 0.70710678);
    (-0.70710678, 0.70710678);
    (0.70710678, -0.70710678);
    (-0.70710678, -0.70710678) ].

(** [self._gradients[idx]]; the index is always in range (lemma
    [gradient_lookup]), the default is never returned. *)
Definition _gradient (self : t) (ix iy : Z) : R * R :=
  let h := hash2d ix iy (seed self) in
  let idx := Z.land h 7 in
  nth (Z.to_nat idx) _gradients (0, 0).

Definition _dot_grid_gradient (self : t) (ix iy : Z) (x y : R) : R :=
  let '(gx, gy) := _gradient self ix iy in
  let dx := x - IZR ix in
  let dy := y - IZR iy in
  gx * dx + gy * dy.

(** The interpolated value before it is mapped and clamped. *)
Definition interpolated (self : t) (x y : R) : R :=
  let x0 := floor x in
  let y0 := floor y in
  let x1 := (x0 + 1)%Z in
  let y1 := (y0 + 1)%Z in
  let sx := fade (x - IZR x0) in
  let sy := fade (y - IZR y0) in
  let n00 := _dot_grid_gradient self x0 y0 x y in
  let n10 := _dot_grid_gradient self x1 y0 x y in
  let n01 := _dot_grid_gradient self x0 y1 x y in
  let n11 := _dot_grid_gradient self x1 y1 x y in
  let ix0 := lerp n00 n10 sx in
  let ix1 := lerp n01 n11 sx in
  lerp ix0 ix1 sy.

Definition sample (self : t) (x y : R) : R :=
  let value := interpolated self x y in
  let v := value * 0.5 + 0.5 in
  py_max 0.0 (py_min 1.0 v).

End PerlinNoise2D.

(** ** Cellular (Worley) noise *)

Module WorleyNoise2D.

Record t : Type := { seed : Z }.

Definition init (seed : Z) : t := {| seed := seed |}.

Definition _feature_point (self : t) (ix iy : Z) : R * R :=
  let h := hash2d ix iy (seed self) in
  let hx := hash32 h in
  let hy := hash32 (Z.lxor h 0x68BC21EB) in
  let fx := to_unit_double hx in
  let fy := to_unit_double hy in
  (IZR ix + fx, IZR iy + fy).

(** [range(-1, 2)] *)
Definition offsets : list Z := [-1; 0; 1]%Z.

(** Squared distance from [(x, y)] to the feature point of cell
    [(cx, cy)]. *)
Definition dist2 (self : t) (x y : R) (cx cy : Z) : R :=
  let '(px, py) := _feature_point self cx cy in
  let dx := px - x in
  let dy := py - y in
  dx * dx + dy * dy.

(** Body of the inner loop: [if d2 < min_dist2: min_dist2 = d2]. *)
Definition visit (self : t) (x y : R) (x_int y_int j : Z)
    (min_dist2 : R) (i : Z) : R :=
  let cx := (x_int + i)%Z in
  let cy := (y_int + j)%Z in
  let d2 := dist2 self x y cx cy in
  if Rlt_dec d2 min_dist2 then d2 else min_dist2.

(** The inner loop over [i], for one [j]. *)
Definition scan_row (self : t) (x y : R) (x_int y_int : Z)
    (min_dist2 : R) (j : Z) : R :=
  fold_left (visit self x y x_int y_int j) offsets min_dist2.

(** Both loops: the value of [min_dist2] after the scan. *)
Definition scan (self : t) (x y : R) : R :=
  let x_int := floor x in
  let y_int := floor y in
  fold_left (scan_row self x y x_int y_int) offsets 1e9.

(** [d / math.sqrt(3.0)], the value of [v] before the clamp. *)
Definition normalized (self : t) (x y : R) : R :=
  let d := sqrt (scan self x y) in
  d / sqrt 3.0.

Definition sample (self : t) (x y : R) : R :=
  let v := normalized self x y in
  let v := py_max 0.0 (py_min 1.0 v) in
  v.

End WorleyNoise2D.

(** ** Predicates used in the statements *)

(** Clamping to the unit interval. *)
Definition clamp01 (v : R) : R := Rmax 0 (Rmin 1 v).

(** Loop invariant of [sample] when [gain] is positive: the amplitude stays
    positive and [total] stays between 0 and [amp_sum]. *)
Definition weighted (s : FBMValueNoise2D.locals) : Prop :=
  0 < FBMValueNoise2D.amp s
  /\ 0 <= FBMValueNoise2D.total s <= FBMValueNoise2D.amp_sum s.

(** The diagonal component of the palette. *)
Definition diag : R := 0.70710678.

(** Shape of a palette entry: on an axis with length 1, or on a diagonal
    with both components [diag] in absolute value. *)
Definition axis_unit (g : R * R) : Prop :=
  (Rabs (fst g) = 1 /\ snd g = 0) \/ (fst g = 0 /\ Rabs (snd g) = 1).

Definition diagonal (g : R * R) : Prop :=
  Rabs (fst g) = diag /\ Rabs (snd g) = diag.

Definition norm2 (g : R * R) : R := fst g * fst g + snd g * snd g.

(** Closes [Rabs c = d] for literals [c] and [d]. *)
Ltac abs_literal :=
  unfold Rabs;
  match goal with |- context [Rcase_abs ?c] => destruct (Rcase_abs c) end;
  lra.

(** ** Inverse of the avalanche mix

    Not part of [noise.py]: the inverse permutation, used to state that
    [hash32] is a bijection of the 32-bit values. *)

Module HashInverse.
Local Open Scope Z_scope.

Definition unxorshift15 (v : Z) : Z :=
  Z.lxor (Z.lxor v (Z.shiftr v 15)) (Z.shiftr v 30).

Definition hash32_inverse (v : Z) : Z :=
  let v := v mod 2 ^ 32 in
  let v := xorshift_right 16 v in
  let v := mul_mod32 0x43021123 v in
  let v := unxorshift15 v in
  let v := mul_mod32 0x1d69e2a5 v in
  xorshift_right 16 v.

End HashInverse.
Export HashInverse.

(** [sum_below f n] is [f 0 + ... + f (n - 1)]. *)
Fixpoint sum_below (f : nat -> R) (n : nat) : R :=
  match n with
  | O => 0
  | S n' => sum_below f n' + f n'
  end.

(** The base sample that octave [k] of the fBm loop adds, when the loop is
    entered at frequency [f]: the base noise at [(x, y)] scaled by
    [f * lacunarity ^ k]. *)
Definition octave_sample (self : FBMValueNoise2D.t) (x y f : R) (k : nat) : R :=
  ValueNoise2D.sample (FBMValueNoise2D.base self)
    (x * (f * FBMValueNoise2D.lacunarity self ^ k))
    (y * (f * FBMValueNoise2D.lacunarity self ^ k)).

(** [(x, y)] is the feature point of one of the nine cells that
    [WorleyNoise2D.sample] scans around it. *)
Definition on_scanned_feature_point (self : WorleyNoise2D.t) (x y : R) : Prop :=
  exists i j : Z,
    In i WorleyNoise2D.offsets /\ In j WorleyNoise2D.offsets
    /\ WorleyNoise2D._feature_point self (floor x + i) (floor y + j) = (x, y).

(** ** Image export

    [save_noise_image] and [main].  The file system is a map from file names
    to contents; [open(filename, "wb")] is taken to succeed (it creates or
    truncates the file), and a file keeps what was written to it when an
    exception leaves the [with] block. *)

Module Exporter.
Import String Ascii.

(** What [save_noise_image] asks of its [noise] argument: a [sample]
    method. *)
Class Noise (T : Type) : Type := noise_sample : T -> R -> R -> result R.

#[export] Instance value_noise : Noise ValueNoise2D.t :=
  fun self x y => Return (ValueNoise2D.sample self x y).

#[export] Instance fbm_value_noise : Noise FBMValueNoise2D.t :=
  FBMValueNoise2D.sample.

#[export] Instance perlin_noise : Noise PerlinNoise2D.t :=
  fun self x y => Return (PerlinNoise2D.sample self x y).

#[export] Instance worley_noise : Noise WorleyNoise2D.t :=
  fun self x y => Return (WorleyNoise2D.sample self x y).

(** The exceptions that can leave [save_noise_image]. *)
Inductive error : Type :=
| Propagated (e : exn)     (* raised by [noise.sample] *)
| ValueError               (* [bytes([n])] with [n] outside [range(256)] *)
| UnicodeEncodeError.      (* [header.encode("ascii")] *)

Definition LF : string := String "010" EmptyString.

(** [str(z)] for an [int]: decimal digits, with a minus sign when
    negative. *)
Definition str (z : Z) : string :=
  DecimalString.NilZero.string_of_int (Z.to_int z).

(** [f"P5\n{width} {height}\n255\n"] *)
Definition header (width height : Z) : string :=
  ("P5" ++ LF ++ str width ++ " " ++ str height ++ LF ++ "255" ++ LF)%string.

(** [s.encode("ascii")]: fails on a character above 127. *)
Definition encode_ascii (s : string) : option (list Byte.byte) :=
  if forallb (fun c => (N_of_ascii c <? 128)%N) (list_ascii_of_string s)
  then Some (list_byte_of_string s)
  else None.

(** [int(r)] for a float: truncation toward zero. *)
Definition py_int (r : R) : Z :=
  if Rlt_dec r 0 then (- floor (- r))%Z else floor r.

(** [bytes([n])]: one byte, or [ValueError] outside [range(256)]. *)
Definition bytes1 (n : Z) : option Byte.byte :=
  if (n <? 0)%Z then None else Byte.of_N (Z.to_N n).

(** [range(n)] *)
Definition range (n : Z) : list Z := map Z.of_nat (seq 0 (Z.to_nat n)).

(** The pixels [(x, y)] in the order in which the two loops visit them. *)
Definition grid (width height : Z) : list (Z * Z) :=
  flat_map (fun y => map (fun x => (x, y)) (range width)) (range height).

(** The body of the inner loop, up to the byte it writes. *)
Definition pixel {T : Type} `{Noise T} (noise : T) (scale : R) (x y : Z)
    : error + Byte.byte :=
  let nx := IZR x * scale in
  let ny := IZR y * scale in
  match noise_sample noise nx ny with
  | Raise e => inl (Propagated e)
  | Return v =>
      let v := py_max 0.0 (py_min 1.0 v) in
      match bytes1 (py_int (v * 255)) with
      | Some b => inr b
      | None => inl ValueError
      end
  end.

(** The two loops: [f] is what the file holds so far; the first exception
    ends them. *)
Fixpoint write_pixels {T : Type} `{Noise T} (noise : T) (scale : R)
    (todo : list (Z * Z)) (f : list Byte.byte)
    : list Byte.byte * option error :=
  match todo with
  | [] => (f, None)
  | (x, y) :: rest =>
      match pixel noise scale x y with
      | inr b => write_pixels noise scale rest (f ++ [b])
      | inl e => (f, Some e)
      end
  end.

Definition files : Type := string -> option (list Byte.byte).

Definition store (fs : files) (name : string) (data : list Byte.byte) : files :=
  fun n => if String.eqb n name then Some data else fs n.

(** Returns the file system after the call and the exception raised, if
    any. *)
Definition save_noise_image {T : Type} `{Noise T} (fs : files) (noise : T)
    (width height : Z) (scale : R) (filename : string)
    : files * option error :=
  match encode_ascii (header width height) with
  | None => (store fs filename [], Some UnicodeEncodeError)
  | Some h =>
      let '(f, r) := write_pixels noise scale (grid width height) h in
      (store fs filename f, r)
  end.

(** What [main] prints at its end. *)
Definition main_message : string :=
  ("Images generated:" ++ LF
   ++ " - value_noise.pgm" ++ LF
   ++ " - fbm_value_noise.pgm" ++ LF
   ++ " - perlin_noise.pgm" ++ LF
   ++ " - worley_noise.pgm" ++ LF)%string.

(** [main]: the file system after the run, the exception raised, if any,
    and what was printed. *)
Definition main (fs : files) : files * option error * option string :=
  let WIDTH := 512%Z in
  let HEIGHT := 512%Z in
  let SCALE := 0.02 in
  let SEED := 1234%Z in
  let value_noise := ValueNoise2D.init SEED in
  let perlin_noise := PerlinNoise2D.init SEED in
  let worley_noise := WorleyNoise2D.init SEED in
  let fbm_value_noise := FBMValueNoise2D.init SEED 6 2.0 0.5 in
  match save_noise_image fs value_noise WIDTH HEIGHT SCALE
          "output/value_noise.pgm" with
  | (fs, Some e) => (fs, Some e, None)
  | (fs, None) =>
  match save_noise_image fs fbm_value_noise WIDTH HEIGHT SCALE
          "output/fbm_value_noise.pgm" with
  | (fs, Some e) => (fs, Some e, None)
  | (fs, None) =>
  match save_noise_image fs perlin_noise WIDTH HEIGHT SCALE
          "output/perlin_noise.pgm" with
  | (fs, Some e) => (fs, Some e, None)
  | (fs, None) =>
  match save_noise_image fs worley_noise WIDTH HEIGHT SCALE
          "output/worley_noise.pgm" with
  | (fs, Some e) => (fs, Some e, None)
  | (fs, None) => (fs, None, Some main_message)
  end end end end.

End Exporter.

(** Every character of [s] is in the ASCII range. *)
Definition all_ascii (s : String.string) : Prop :=
  forallb (fun c => (Ascii.N_of_ascii c <? 128)%N)
    (String.list_ascii_of_string s) = true.

(** The 8-bit gray level of a sample: clamp, scale by 255, round down. *)
Definition quantize (v : R) : Z := floor (clamp01 v * 255).

(** ** Bounds of the hash kernel *)

Section HashBounds.
Local Open Scope Z_scope.

Lemma mask32_ones : mask32 = Z.ones 32.
Proof. reflexivity. Qed.

Lemma land_mask32 (x : Z) : Z.land x mask32 = x mod 2 ^ 32.
Proof. rewrite mask32_ones. apply Z.land_ones. lia. Qed.

Lemma land_mask32_small (x : Z) : 0 <= x < 2 ^ 32 -> Z.land x mask32 = x.
Proof. intros H. rewrite land_mask32. apply Z.mod_small. exact H. Qed.

Lemma xorshift_right_bound (n x : Z) :
  0 <= n -> 0 <= x < 2 ^ 32 -> 0 <= Z.lxor x (Z.shiftr x n) < 2 ^ 32.
Proof.
  intros Hn [Hx0 Hx1].
  assert (Hs0 : 0 <= Z.shiftr x n) by (apply Z.shiftr_nonneg; exact Hx0).
  assert (Hl0 : 0 <= Z.lxor x (Z.shiftr x n))
    by (apply Z.lxor_nonneg; split; intros _; assumption).
  split; [exact Hl0|].
  destruct (Z.eq_dec (Z.lxor x (Z.shiftr x n)) 0) as [E|NE]; [rewrite E; lia|].
  apply Z.log2_lt_pow2; [lia|].
  eapply Z.le_lt_trans; [apply Z.log2_lxor; assumption|].
  assert (Hlx : Z.log2 x < 32).
  { destruct (Z.eq_dec x 0) as [->|Hx]; [simpl; lia|].
    apply Z.log2_lt_pow2; lia. }
  assert (Hls : Z.log2 (Z.shiftr x n) <= Z.log2 x).
  { apply Z.log2_le_mono. rewrite Z.shiftr_div_pow2 by exact Hn.
    apply Z.div_le_upper_bound; [apply Z.pow_pos_nonneg; lia|].
    assert (1 <= 2 ^ n) by (apply Z.pow_pos_nonneg with (a := 2) in Hn; lia).
    nia. }
  lia.
Qed.

Lemma hash32_bound (x : Z) : 0 <= hash32 x < 2 ^ 32.
Proof.
  unfold hash32. cbv zeta. rewrite !land_mask32.
  apply Z.mod_pos_bound. lia.
Qed.

Lemma hash2d_bound (x y seed : Z) : 0 <= hash2d x y seed < 2 ^ 32.
Proof. unfold hash2d. cbv zeta. apply hash32_bound. Qed.

End HashBounds.

(** ** The avalanche mix against its reference *)

Section HashReference.
Local Open Scope Z_scope.

Lemma mul_mod32_bound (c v : Z) : 0 <= mul_mod32 c v < 2 ^ 32.
Proof. unfold mul_mod32. apply Z.mod_pos_bound. lia. Qed.

Lemma hash32_unfold (v : Z) : hash32 v = hash32_reference v.
Proof.
  unfold hash32, hash32_reference. cbv zeta.
  rewrite (land_mask32 v), (land_mask32 (_ * 0x7feb352d)),
    (land_mask32 (_ * 0x846ca68b)).
  fold (mul_mod32 0x7feb352d (Z.lxor (v mod 2 ^ 32) (Z.shiftr (v mod 2 ^ 32) 16))).
  set (a := mul_mod32 0x7feb352d _).
  fold (mul_mod32 0x846ca68b (Z.lxor a (Z.shiftr a 15))).
  set (b := mul_mod32 0x846ca68b _).
  rewrite land_mask32_small
    by (apply xorshift_right_bound; [lia | apply mul_mod32_bound]).
  reflexivity.
Qed.

(** C3.  For every integer [v], [hash32 v] is the reference avalanche mix of
    [v] reduced modulo 2^32 (xor with the value shifted right by 16,
    multiplication by 0x7feb352d modulo 2^32, xor with the value shifted
    right by 15, multiplication by 0x846ca68b modulo 2^32, xor with the value
    shifted right by 16), and it lies in [0, 2^32 - 1]. *)
Theorem hash32_reference_mix (v : Z) :
  hash32 v = hash32_reference v /\ 0 <= hash32 v <= 2 ^ 32 - 1.
Proof.
  split.
  - apply hash32_unfold.
  - pose proof (hash32_bound v). lia.
Qed.

End HashReference.

(** ** Scalar utilities *)

Section Scalars.

Lemma to_unit_double_range (v : Z) :
  (0 <= v < 2 ^ 32)%Z -> 0 <= to_unit_double v <= 1.
Proof.
  intros [H0 H1]. unfold to_unit_double.
  assert (Hv0 : 0 <= IZR v) by (apply IZR_le in H0; exact H0).
  assert (Hv1 : IZR v <= IZR 0xFFFFFFFF) by (apply IZR_le; lia).
  assert (Hd : 0 < IZR 0xFFFFFFFF) by lra.
  split.
  - apply Rmult_le_reg_r with (r := IZR 0xFFFFFFFF); [exact Hd|].
    unfold Rdiv. rewrite Rmult_assoc, Rinv_l by lra. lra.
  - apply Rmult_le_reg_r with (r := IZR 0xFFFFFFFF); [exact Hd|].
    unfold Rdiv. rewrite Rmult_assoc, Rinv_l by lra. lra.
Qed.

Lemma fade_0 : fade 0 = 0.
Proof. unfold fade. ring. Qed.

Lemma fade_1 : fade 1 = 1.
Proof. unfold fade. ring. Qed.

Lemma fade_sym (t : R) : fade (1 - t) = 1 - fade t.
Proof. unfold fade. ring. Qed.

Lemma fade_nonneg (t : R) : 0 <= t -> 0 <= fade t.
Proof.
  intros Ht. unfold fade.
  assert (Hq : 0 < t * (t * 6 - 15) + 10).
  { replace (t * (t * 6 - 15) + 10)
      with (6 * ((t - 5 / 4) * (t - 5 / 4)) + 5 / 8) by field.
    pose proof (Rle_0_sqr (t - 5 / 4)) as Hs. unfold Rsqr in Hs. lra. }
  assert (Hc : 0 <= t * t * t).
  { apply Rmult_le_pos; [apply Rmult_le_pos|]; exact Ht. }
  apply Rmult_le_pos; lra.
Qed.

Lemma fade_range (t : R) : 0 <= t <= 1 -> 0 <= fade t <= 1.
Proof.
  intros [H0 H1]. split.
  - apply fade_nonneg, H0.
  - assert (H : 0 <= fade (1 - t)) by (apply fade_nonneg; lra).
    rewrite fade_sym in H. lra.
Qed.

Lemma lerp_0 (a b : R) : lerp a b 0 = a.
Proof. unfold lerp. ring. Qed.

Lemma lerp_1 (a b : R) : lerp a b 1 = b.
Proof. unfold lerp. ring. Qed.

(** A [lerp] with a parameter in [0, 1] is a convex combination. *)
Lemma lerp_between (lo hi a b t : R) :
  lo <= a <= hi -> lo <= b <= hi -> 0 <= t <= 1 -> lo <= lerp a b t <= hi.
Proof.
  intros [Ha0 Ha1] [Hb0 Hb1] [Ht0 Ht1].
  replace (lerp a b t) with ((1 - t) * a + t * b) by (unfold lerp; ring).
  split; nra.
Qed.

Lemma floor_spec (x : R) : IZR (floor x) <= x < IZR (floor x) + 1.
Proof. unfold floor. destruct (base_Int_part x). lra. Qed.

Lemma floor_frac (x : R) : 0 <= x - IZR (floor x) < 1.
Proof. pose proof (floor_spec x). lra. Qed.

Lemma floor_unique (x : R) (z : Z) : IZR z <= x < IZR z + 1 -> floor x = z.
Proof.
  intros H. unfold floor. symmetry. apply Int_part_spec. lra.
Qed.

Lemma floor_IZR (z : Z) : floor (IZR z) = z.
Proof. apply floor_unique. lra. Qed.

Lemma py_clamp (v : R) : py_max 0.0 (py_min 1.0 v) = clamp01 v.
Proof.
  unfold clamp01, py_max, py_min, Rmax, Rmin.
  destruct (Rlt_dec v 1.0); destruct (Rle_dec 1 v);
    destruct (Rlt_dec 0.0 _); destruct (Rle_dec 0 _); lra.
Qed.

Lemma clamp01_range (v : R) : 0 <= clamp01 v <= 1.
Proof.
  unfold clamp01, Rmax, Rmin.
  destruct (Rle_dec 1 v); destruct (Rle_dec 0 _); lra.
Qed.

Lemma clamp01_id (v : R) : 0 <= v <= 1 -> clamp01 v = v.
Proof.
  intros H. unfold clamp01, Rmax, Rmin.
  destruct (Rle_dec 1 v); destruct (Rle_dec 0 _); lra.
Qed.

End Scalars.

(** ** Value noise *)

Section Value.
Import ValueNoise2D.

Lemma lattice_value_range (self : t) (ix iy : Z) :
  0 <= _lattice_value self ix iy <= 1.
Proof. unfold _lattice_value. apply to_unit_double_range, hash2d_bound. Qed.

Lemma value_sample_range (self : t) (x y : R) : 0 <= sample self x y <= 1.
Proof.
  unfold sample. cbv zeta.
  assert (Hu : 0 <= fade (x - IZR (floor x)) <= 1).
  { apply fade_range. pose proof (floor_frac x). lra. }
  assert (Hv : 0 <= fade (y - IZR (floor y)) <= 1).
  { apply fade_range. pose proof (floor_frac y). lra. }
  apply lerp_between; [| | exact Hv];
    (apply lerp_between; [apply lattice_value_range .. | exact Hu]).
Qed.

Lemma value_sample_lattice (self : t) (ix iy : Z) :
  sample self (IZR ix) (IZR iy) = _lattice_value self ix iy.
Proof.
  unfold sample. cbv zeta. rewrite !floor_IZR.
  replace (IZR ix - IZR ix) with 0 by ring.
  replace (IZR iy - IZR iy) with 0 by ring.
  rewrite fade_0, !lerp_0. reflexivity.
Qed.

(** C2.  At an integer lattice coordinate value noise returns the corner
    value [to_unit_double (hash2d ix iy seed)], for every seed; in
    particular for seed 1234 at (10.0, 20.0), where the hash is 196494926
    and the sample is 196494926 / 4294967295. *)
Theorem value_lattice_agreement :
  (forall seed ix iy : Z,
      sample (init seed) (IZR ix) (IZR iy) = to_unit_double (hash2d ix iy seed))
  /\ sample (init 1234) 10.0 20.0 = to_unit_double (hash2d 10 20 1234)
  /\ hash2d 10 20 1234 = 196494926%Z
  /\ sample (init 1234) 10.0 20.0 = 196494926 / 4294967295.
Proof.
  assert (H : sample (init 1234) 10.0 20.0
              = to_unit_double (hash2d 10 20 1234)).
  { replace 10.0 with (IZR 10) by lra. replace 20.0 with (IZR 20) by lra.
    apply value_sample_lattice. }
  split; [|split; [|split]].
  - intros seed ix iy. apply value_sample_lattice.
  - exact H.
  - vm_compute. reflexivity.
  - rewrite H.
    replace (hash2d 10 20 1234) with 196494926%Z by (vm_compute; reflexivity).
    reflexivity.
Qed.

End Value.

(** ** fBm *)

Section FBM.
Import FBMValueNoise2D.

Lemma weighted_locals0 : weighted locals0.
Proof. unfold weighted, locals0; simpl. lra. Qed.

Lemma octave_weighted (self : t) (x y : R) (s : locals) :
  0 < gain self -> weighted s ->
  weighted (octave self x y s) /\ amp_sum s < amp_sum (octave self x y s).
Proof.
  intros Hg [Ha [Ht0 Ht1]]. unfold weighted, octave; simpl.
  pose proof (value_sample_range (base self) (x * freq s) (y * freq s)) as Hv.
  repeat split; try nra.
Qed.

Lemma octave_loop_weighted (self : t) (x y : R) (n : nat) (s : locals) :
  0 < gain self -> weighted s ->
  weighted (octave_loop self x y n s)
  /\ amp_sum s <= amp_sum (octave_loop self x y n s).
Proof.
  intros Hg. revert s. induction n as [|n IH]; intros s Hs; simpl.
  - split; [exact Hs | lra].
  - destruct (octave_weighted self x y s Hg Hs) as [Hs' Hlt].
    destruct (IH _ Hs') as [Hw Hle]. split; [exact Hw | lra].
Qed.

Lemma run_weighted (self : t) (x y : R) :
  (1 <= octaves self)%Z -> 0 < gain self ->
  0 < amp_sum (run self x y)
  /\ 0 <= total (run self x y) <= amp_sum (run self x y).
Proof.
  intros Ho Hg. unfold run.
  destruct (Z.to_nat (octaves self)) as [|n] eqn:En; [lia|].
  cbn [octave_loop].
  destruct (octave_weighted self x y locals0 Hg weighted_locals0) as [Hs Hlt].
  destruct (octave_loop_weighted self x y n _ Hg Hs) as [[_ Hw] Hle].
  change (amp_sum locals0) with 0 in Hlt. split; [lra | exact Hw].
Qed.

Lemma run_no_octave (self : t) (x y : R) :
  (octaves self <= 0)%Z -> run self x y = locals0.
Proof.
  intros Ho. unfold run.
  replace (Z.to_nat (octaves self)) with 0%nat by lia. reflexivity.
Qed.

Lemma sample_returns (self : t) (x y : R) :
  amp_sum (run self x y) <> 0 ->
  sample self x y = Return (total (run self x y) / amp_sum (run self x y)).
Proof.
  intros H. unfold sample. cbv zeta.
  destruct (Req_dec_T (amp_sum (run self x y)) 0) as [E|_]; [contradiction|].
  reflexivity.
Qed.

Lemma sample_raises (self : t) (x y : R) :
  amp_sum (run self x y) = 0 -> sample self x y = Raise ZeroDivisionError.
Proof.
  intros H. unfold sample. cbv zeta.
  destruct (Req_dec_T (amp_sum (run self x y)) 0) as [_|N]; [|contradiction].
  reflexivity.
Qed.

Lemma fbm_sample_range (self : t) (x y : R) :
  (1 <= octaves self)%Z -> 0 < gain self ->
  exists v, sample self x y = Return v /\ 0 <= v <= 1.
Proof.
  intros Ho Hg.
  destruct (run_weighted self x y Ho Hg) as [Hpos [Ht0 Ht1]].
  exists (total (run self x y) / amp_sum (run self x y)). split.
  - apply sample_returns. lra.
  - split.
    + apply Rmult_le_pos; [exact Ht0|].
      apply Rlt_le, Rinv_0_lt_compat, Hpos.
    + apply Rmult_le_reg_r with (r := amp_sum (run self x y)); [exact Hpos|].
      unfold Rdiv. rewrite Rmult_assoc, Rinv_l by lra. lra.
Qed.

(** C5.  With one octave, fBm returns exactly the sample of its base value
    noise (same seed): [amp_sum] is 1 and [total] is the base sample times
    1. *)
Theorem fbm_single_octave (seed : Z) (lacunarity gain x y : R) :
  let self := init seed 1 lacunarity gain in
  base self = ValueNoise2D.init seed
  /\ sample self x y = Return (ValueNoise2D.sample (base self) x y)
  /\ amp_sum (run self x y) = 1
  /\ total (run self x y) = ValueNoise2D.sample (base self) x y * 1.
Proof.
  cbv zeta. set (self := init seed 1 lacunarity gain).
  assert (Hs : amp_sum (run self x y) = 1).
  { unfold run; simpl. ring. }
  assert (Ht : total (run self x y)
               = ValueNoise2D.sample (base self) x y * 1).
  { unfold run; simpl. rewrite !Rmult_1_r. ring. }
  split; [reflexivity|]. split; [|split; assumption].
  rewrite sample_returns by (rewrite Hs; lra).
  rewrite Hs, Ht. f_equal. field.
Qed.




End FBM.

(** ** Gradient (Perlin) noise *)

Section Perlin.
Import PerlinNoise2D.

Lemma inv_sqrt2_sqr : / sqrt 2 * / sqrt 2 = / 2.
Proof.
  assert (H2 : sqrt 2 * sqrt 2 = 2) by (apply sqrt_sqrt; lra).
  assert (Hp : 0 < sqrt 2) by (apply sqrt_lt_R0; lra).
  rewrite <- Rinv_mult, H2. reflexivity.
Qed.

Lemma inv_sqrt2_pos : 0 < / sqrt 2.
Proof. apply Rinv_0_lt_compat, sqrt_lt_R0. lra. Qed.

Lemma diag_below_inv_sqrt2 : diag < / sqrt 2 < diag + 1 / 100000000.
Proof.
  pose proof inv_sqrt2_sqr as Hs. pose proof inv_sqrt2_pos as Hp.
  unfold diag. split.
  - destruct (Rlt_le_dec 0.70710678 (/ sqrt 2)) as [H|H]; [exact H|].
    exfalso. assert (/ sqrt 2 * / sqrt 2 <= 0.70710678 * 0.70710678) by nra.
    lra.
  - destruct (Rlt_le_dec (/ sqrt 2) (0.70710678 + 1 / 100000000)) as [H|H];
      [exact H|].
    exfalso.
    assert ((0.70710678 + 1 / 100000000) * (0.70710678 + 1 / 100000000)
            <= / sqrt 2 * / sqrt 2) by nra.
    lra.
Qed.

Lemma gradients_length : length _gradients = 8%nat.
Proof. reflexivity. Qed.

Lemma land7_range (h : Z) : (0 <= Z.land h 7 < 8)%Z.
Proof.
  change 7%Z with (Z.ones 3). rewrite Z.land_ones by lia.
  apply Z.mod_pos_bound. lia.
Qed.

Lemma gradient_lookup (self : t) (ix iy : Z) :
  nth_error _gradients (Z.to_nat (Z.land (hash2d ix iy (seed self)) 7))
  = Some (_gradient self ix iy).
Proof.
  unfold _gradient. cbv zeta. apply nth_error_nth'.
  rewrite gradients_length. pose proof (land7_range (hash2d ix iy (seed self))).
  lia.
Qed.

Lemma gradients_axis : Forall axis_unit (firstn 4 _gradients).
Proof.
  unfold _gradients; simpl.
  repeat apply Forall_cons; [| | | | apply Forall_nil]; unfold axis_unit; simpl.
  - left. split; [abs_literal | lra].
  - left. split; [abs_literal | lra].
  - right. split; [lra | abs_literal].
  - right. split; [lra | abs_literal].
Qed.

Lemma gradients_diagonal : Forall diagonal (skipn 4 _gradients).
Proof.
  unfold _gradients; simpl.
  repeat apply Forall_cons; [| | | | apply Forall_nil];
    unfold diagonal, diag; simpl; split; abs_literal.
Qed.

Lemma axis_unit_norm2 (g : R * R) : axis_unit g -> norm2 g = 1.
Proof.
  destruct g as [gx gy]. unfold axis_unit, norm2; simpl.
  intros [[H1 H2]|[H1 H2]]; subst.
  - assert (Hs : gx * gx = Rabs gx * Rabs gx)
      by (unfold Rabs; destruct (Rcase_abs gx); ring).
    rewrite Hs, H1. ring.
  - assert (Hs : gy * gy = Rabs gy * Rabs gy)
      by (unfold Rabs; destruct (Rcase_abs gy); ring).
    rewrite Hs, H2. ring.
Qed.

Lemma diagonal_norm2 (g : R * R) :
  diagonal g -> norm2 g = 0.9999999966439368.
Proof.
  destruct g as [gx gy]. unfold diagonal, norm2, diag; simpl.
  intros [H1 H2].
  assert (Hx : gx * gx = Rabs gx * Rabs gx)
    by (unfold Rabs; destruct (Rcase_abs gx); ring).
  assert (Hy : gy * gy = Rabs gy * Rabs gy)
    by (unfold Rabs; destruct (Rcase_abs gy); ring).
  rewrite Hx, Hy, H1, H2. lra.
Qed.

Lemma gradients_distinct : NoDup _gradients.
Proof.
  unfold _gradients.
  repeat (constructor;
          [simpl; intros H;
           repeat (destruct H as [H|H];
                   [apply (f_equal fst) in H as Hf;
                    apply (f_equal snd) in H as Hs;
                    simpl in Hf, Hs; lra|]);
           exact H|]).
  constructor.
Qed.

(** C6, as the code has it.  The palette has exactly 8 distinct vectors and
    [_gradient] returns the entry at index [hash2d ix iy seed & 7].  The
    first four are the axis-aligned unit vectors.  The last four lie on the
    diagonals, both components being 0.70710678 in absolute value: 1/sqrt 2
    cut to eight decimals, less than 1/sqrt 2 by under 1e-8, so that their
    squared length is 0.9999999966439368 rather than 1. *)
Theorem gradient_palette :
  length _gradients = 8%nat
  /\ NoDup _gradients
  /\ Forall axis_unit (firstn 4 _gradients)
  /\ Forall (fun g => norm2 g = 1) (firstn 4 _gradients)
  /\ Forall diagonal (skipn 4 _gradients)
  /\ Forall (fun g => norm2 g = 0.9999999966439368) (skipn 4 _gradients)
  /\ diag < / sqrt 2 < diag + 1 / 100000000
  /\ forall (seed ix iy : Z),
      let idx := Z.land (hash2d ix iy seed) 7 in
      (0 <= idx < 8)%Z
      /\ nth_error _gradients (Z.to_nat idx) = Some (_gradient (init seed) ix iy).
Proof.
  split; [apply gradients_length|].
  split; [apply gradients_distinct|].
  split; [apply gradients_axis|].
  split.
  { eapply Forall_impl; [|apply gradients_axis]. apply axis_unit_norm2. }
  split; [apply gradients_diagonal|].
  split.
  { eapply Forall_impl; [|apply gradients_diagonal]. apply diagonal_norm2. }
  split; [apply diag_below_inv_sqrt2|].
  intros seed ix iy idx. split.
  - apply land7_range.
  - apply (gradient_lookup (init seed)).
Qed.

(** C6, refuted as stated: with seed 1234 the gradient of lattice point
    (0, 0) is palette entry 4; it is not of unit length and its components
    are not 1/sqrt 2. *)
Lemma gradient_not_unit :
  let g := _gradient (init 1234) 0 0 in
  Z.land (hash2d 0 0 1234) 7 = 4%Z
  /\ g = (0.70710678, 0.70710678)
  /\ norm2 g <> 1
  /\ fst g <> / sqrt 2.
Proof.
  cbv zeta.
  assert (Hi : Z.land (hash2d 0 0 1234) 7 = 4%Z) by (vm_compute; reflexivity).
  assert (Hg : _gradient (init 1234) 0 0 = (0.70710678, 0.70710678)).
  { unfold _gradient. cbv zeta. simpl seed. rewrite Hi. reflexivity. }
  split; [exact Hi|]. split; [exact Hg|]. rewrite Hg. split.
  - unfold norm2; simpl. lra.
  - simpl. pose proof diag_below_inv_sqrt2 as [H _]. unfold diag in H. lra.
Qed.

Lemma dot_grid_gradient_own (self : t) (ix iy : Z) :
  _dot_grid_gradient self ix iy (IZR ix) (IZR iy) = 0.
Proof.
  unfold _dot_grid_gradient. destruct (_gradient self ix iy) as [gx gy]. ring.
Qed.

Lemma interpolated_lattice (self : t) (ix iy : Z) :
  interpolated self (IZR ix) (IZR iy) = 0.
Proof.
  unfold interpolated. cbv zeta. rewrite !floor_IZR.
  replace (IZR ix - IZR ix) with 0 by ring.
  replace (IZR iy - IZR iy) with 0 by ring.
  rewrite fade_0, !lerp_0. apply dot_grid_gradient_own.
Qed.

(** C7.  At an integer lattice coordinate the dot product with the corner's
    own gradient is 0, the interpolation collapses to it, and the sample is
    exactly 0.5. *)
Theorem perlin_lattice_half (seed ix iy : Z) :
  _dot_grid_gradient (init seed) ix iy (IZR ix) (IZR iy) = 0
  /\ interpolated (init seed) (IZR ix) (IZR iy) = 0
  /\ sample (init seed) (IZR ix) (IZR iy) = 0.5.
Proof.
  split; [apply dot_grid_gradient_own|].
  split; [apply interpolated_lattice|].
  unfold sample. cbv zeta. rewrite py_clamp, interpolated_lattice.
  replace (0 * 0.5 + 0.5) with 0.5 by lra.
  apply clamp01_id. lra.
Qed.

Lemma perlin_sample_range (self : t) (x y : R) : 0 <= sample self x y <= 1.
Proof. unfold sample. cbv zeta. rewrite py_clamp. apply clamp01_range. Qed.

Lemma perlin_sample_clamp (self : t) (x y : R) :
  sample self x y = clamp01 (interpolated self x y * 0.5 + 0.5).
Proof. unfold sample. cbv zeta. apply py_clamp. Qed.

End Perlin.

(** ** Cellular (Worley) noise *)

Section FoldMin.
(** Folds whose step never increases the accumulator, as the two loops of
    the neighbourhood scan. *)
Context {A : Type} (F : R -> A -> R).

Lemma fold_left_decreasing (l : list A) (m : R) :
  (forall m a, F m a <= m) -> fold_left F l m <= m.
Proof.
  intros HF. revert m. induction l as [|a l IH]; intros m; simpl.
  - lra.
  - eapply Rle_trans; [apply IH | apply HF].
Qed.

Lemma fold_left_below (l : list A) (m c : R) (a : A) :
  (forall m a, F m a <= m) -> (forall m, F m a <= c) -> In a l ->
  fold_left F l m <= c.
Proof.
  intros HF Ha. revert m. induction l as [|b l IH]; intros m Hin; simpl.
  - destruct Hin.
  - destruct Hin as [->|Hin].
    + eapply Rle_trans; [apply fold_left_decreasing, HF | apply Ha].
    + apply IH, Hin.
Qed.

Lemma fold_left_above (l : list A) (m lo : R) :
  (forall m a, lo <= m -> lo <= F m a) -> lo <= m -> lo <= fold_left F l m.
Proof.
  intros HF. revert m. induction l as [|a l IH]; intros m Hm; simpl.
  - exact Hm.
  - apply IH, HF, Hm.
Qed.

End FoldMin.

Section Worley.
Import WorleyNoise2D.

Lemma feature_point_offsets (self : t) (ix iy : Z) :
  exists fx fy, 0 <= fx <= 1 /\ 0 <= fy <= 1
    /\ _feature_point self ix iy = (IZR ix + fx, IZR iy + fy).
Proof.
  unfold _feature_point. cbv zeta.
  eexists _, _. split; [|split; [|reflexivity]];
    apply to_unit_double_range, hash32_bound.
Qed.


Lemma dist2_nonneg (self : t) (x y : R) (cx cy : Z) :
  0 <= dist2 self x y cx cy.
Proof.
  unfold dist2. destruct (_feature_point self cx cy) as [px py]. cbv zeta.
  pose proof (Rle_0_sqr (px - x)) as Hx. pose proof (Rle_0_sqr (py - y)) as Hy.
  unfold Rsqr in Hx, Hy. lra.
Qed.

Lemma dist2_at_feature_point (self : t) (cx cy : Z) (x y : R) :
  _feature_point self cx cy = (x, y) -> dist2 self x y cx cy = 0.
Proof. intros H. unfold dist2. rewrite H. cbv zeta. ring. Qed.

Lemma visit_le (self : t) (x y : R) (x_int y_int j : Z) (m : R) (i : Z) :
  visit self x y x_int y_int j m i <= m.
Proof.
  unfold visit. cbv zeta. destruct (Rlt_dec _ m); lra.
Qed.

Lemma visit_le_dist2 (self : t) (x y : R) (x_int y_int j : Z) (m : R) (i : Z) :
  visit self x y x_int y_int j m i
  <= dist2 self x y (x_int + i) (y_int + j).
Proof.
  unfold visit. cbv zeta. destruct (Rlt_dec _ m); lra.
Qed.

Lemma visit_nonneg (self : t) (x y : R) (x_int y_int j : Z) (m : R) (i : Z) :
  0 <= m -> 0 <= visit self x y x_int y_int j m i.
Proof.
  intros Hm. unfold visit. cbv zeta.
  destruct (Rlt_dec _ m); [apply dist2_nonneg | exact Hm].
Qed.

Lemma scan_row_le (self : t) (x y : R) (x_int y_int : Z) (m : R) (j : Z) :
  scan_row self x y x_int y_int m j <= m.
Proof. unfold scan_row. apply fold_left_decreasing. intros; apply visit_le. Qed.

Lemma scan_row_le_dist2 (self : t) (x y : R) (x_int y_int : Z) (m : R)
    (i j : Z) :
  In i offsets ->
  scan_row self x y x_int y_int m j
  <= dist2 self x y (x_int + i) (y_int + j).
Proof.
  intros Hi. unfold scan_row.
  apply fold_left_below with (a := i); [| | exact Hi].
  - intros; apply visit_le.
  - intros; apply visit_le_dist2.
Qed.

Lemma scan_row_nonneg (self : t) (x y : R) (x_int y_int : Z) (m : R) (j : Z) :
  0 <= m -> 0 <= scan_row self x y x_int y_int m j.
Proof.
  intros Hm. unfold scan_row. apply fold_left_above; [|exact Hm].
  intros; apply visit_nonneg; assumption.
Qed.

(** The scan returns a lower bound of the nine squared distances. *)
Lemma scan_le_dist2 (self : t) (x y : R) (i j : Z) :
  In i offsets -> In j offsets ->
  scan self x y <= dist2 self x y (floor x + i) (floor y + j).
Proof.
  intros Hi Hj. unfold scan. cbv zeta.
  apply fold_left_below with (a := j); [| | exact Hj].
  - intros; apply scan_row_le.
  - intros; apply scan_row_le_dist2, Hi.
Qed.

Lemma scan_nonneg (self : t) (x y : R) : 0 <= scan self x y.
Proof.
  unfold scan. cbv zeta. apply fold_left_above; [|lra].
  intros; apply scan_row_nonneg; assumption.
Qed.

(** The cell of the sample point itself holds a feature point at squared
    distance at most 2. *)
Lemma dist2_own_cell (self : t) (x y : R) :
  dist2 self x y (floor x) (floor y) <= 2.
Proof.
  unfold dist2.
  destruct (feature_point_offsets self (floor x) (floor y))
    as (fx & fy & Hx & Hy & ->).
  cbv zeta.
  pose proof (floor_spec x). pose proof (floor_spec y).
  assert (-1 <= IZR (floor x) + fx - x <= 1) by lra.
  assert (-1 <= IZR (floor y) + fy - y <= 1) by lra.
  nra.
Qed.

Lemma scan_le_2 (self : t) (x y : R) : scan self x y <= 2.
Proof.
  eapply Rle_trans; [|apply (dist2_own_cell self x y)].
  pose proof (scan_le_dist2 self x y 0 0) as H.
  rewrite !Z.add_0_r in H. apply H; unfold offsets; simpl; auto.
Qed.

Lemma sqrt3_pos : 0 < sqrt 3.0.
Proof. apply sqrt_lt_R0. lra. Qed.

Lemma sqrt2_lt_sqrt3 : sqrt 2 < sqrt 3.0.
Proof. apply sqrt_lt_1; lra. Qed.

Lemma normalized_bounds (self : t) (x y : R) :
  0 <= normalized self x y <= sqrt 2 / sqrt 3.0
  /\ normalized self x y < 1.
Proof.
  unfold normalized. cbv zeta.
  pose proof sqrt3_pos as H3. pose proof sqrt2_lt_sqrt3 as H23.
  assert (Hs0 : 0 <= sqrt (scan self x y)) by apply sqrt_pos.
  assert (Hs2 : sqrt (scan self x y) <= sqrt 2)
    by (apply sqrt_le_1; [apply scan_nonneg | lra | apply scan_le_2]).
  assert (Hi : 0 < / sqrt 3.0) by (apply Rinv_0_lt_compat, H3).
  unfold Rdiv. repeat split.
  - apply Rmult_le_pos; lra.
  - apply Rmult_le_compat_r; lra.
  - apply Rmult_lt_reg_r with (r := sqrt 3.0); [exact H3|].
    rewrite Rmult_assoc, Rinv_l by lra. lra.
Qed.

Lemma worley_sample_clamp (self : t) (x y : R) :
  sample self x y = clamp01 (normalized self x y).
Proof. unfold sample. cbv zeta. apply py_clamp. Qed.

Lemma worley_sample_range (self : t) (x y : R) : 0 <= sample self x y <= 1.
Proof. rewrite worley_sample_clamp. apply clamp01_range. Qed.

(** The cell of a feature point is within one step of the cell the point
    falls in. *)
Lemma feature_cell_scanned (fx : R) (ix : Z) :
  0 <= fx <= 1 -> exists i, In i offsets /\ (floor (IZR ix + fx) + i)%Z = ix.
Proof.
  intros [H0 H1]. destruct (Req_dec_T fx 1) as [->|Hne].
  - exists (-1)%Z. split; [unfold offsets; simpl; auto|].
    rewrite (floor_unique (IZR ix + 1) (ix + 1)); [lia|].
    rewrite plus_IZR. lra.
  - exists 0%Z. split; [unfold offsets; simpl; auto|].
    rewrite (floor_unique (IZR ix + fx) ix); [lia | lra].
Qed.





End Worley.

(** ** Range of the four components *)



(** ** The hash kernel as a permutation, and its period *)

Section HashPermutation.
Local Open Scope Z_scope.

Lemma lxor_bound32 (a b : Z) :
  0 <= a < 2 ^ 32 -> 0 <= b < 2 ^ 32 -> 0 <= Z.lxor a b < 2 ^ 32.
Proof.
  intros [Ha0 Ha1] [Hb0 Hb1].
  assert (H0 : 0 <= Z.lxor a b) by (apply Z.lxor_nonneg; lia).
  split; [exact H0|].
  destruct (Z.eq_dec (Z.lxor a b) 0) as [E|NE]; [rewrite E; lia|].
  apply Z.log2_lt_pow2; [lia|].
  eapply Z.le_lt_trans; [apply Z.log2_lxor; assumption|].
  assert (La : Z.log2 a < 32).
  { destruct (Z.eq_dec a 0) as [->|]; [simpl; lia | apply Z.log2_lt_pow2; lia]. }
  assert (Lb : Z.log2 b < 32).
  { destruct (Z.eq_dec b 0) as [->|]; [simpl; lia | apply Z.log2_lt_pow2; lia]. }
  lia.
Qed.

Lemma shiftr_bound32 (x n : Z) :
  0 <= n -> 0 <= x < 2 ^ 32 -> 0 <= Z.shiftr x n < 2 ^ 32.
Proof.
  intros Hn [H0 H1]. rewrite Z.shiftr_div_pow2 by exact Hn.
  assert (Hp : 0 < 2 ^ n) by (apply Z.pow_pos_nonneg; lia).
  split; [apply Z.div_pos; lia|].
  apply Z.div_lt_upper_bound; [exact Hp | nia].
Qed.

Lemma shiftr_high (x n : Z) : 0 <= x < 2 ^ 32 -> 32 <= n -> Z.shiftr x n = 0.
Proof.
  intros [H0 H1] Hn. rewrite Z.shiftr_div_pow2 by lia.
  apply Z.div_small. split; [exact H0|].
  eapply Z.lt_le_trans; [exact H1|]. apply Z.pow_le_mono_r; lia.
Qed.

Lemma xorshift16_involutive (x : Z) :
  0 <= x < 2 ^ 32 -> xorshift_right 16 (xorshift_right 16 x) = x.
Proof.
  intros Hx. unfold xorshift_right.
  rewrite Z.shiftr_lxor, Z.shiftr_shiftr by lia.
  rewrite (shiftr_high x (16 + 16)) by (assumption || lia).
  rewrite Z.lxor_0_r, Z.lxor_assoc, Z.lxor_nilpotent, Z.lxor_0_r.
  reflexivity.
Qed.

Lemma unxorshift15_xorshift (x : Z) :
  0 <= x < 2 ^ 32 -> unxorshift15 (xorshift_right 15 x) = x.
Proof.
  intros Hx. unfold unxorshift15, xorshift_right.
  rewrite !Z.shiftr_lxor, !Z.shiftr_shiftr by lia.
  rewrite (shiftr_high x (15 + 30)) by (assumption || lia).
  change (15 + 15) with 30.
  rewrite Z.lxor_0_r.
  set (a := Z.shiftr x 15). set (b := Z.shiftr x 30).
  rewrite (Z.lxor_assoc x a (Z.lxor a b)), <- (Z.lxor_assoc a a b).
  rewrite Z.lxor_nilpotent, Z.lxor_0_l.
  rewrite Z.lxor_assoc, Z.lxor_nilpotent, Z.lxor_0_r. reflexivity.
Qed.

Lemma xorshift_unxorshift15 (x : Z) :
  0 <= x < 2 ^ 32 -> xorshift_right 15 (unxorshift15 x) = x.
Proof.
  intros Hx. unfold unxorshift15, xorshift_right.
  rewrite !Z.shiftr_lxor, !Z.shiftr_shiftr by lia.
  rewrite (shiftr_high x (30 + 15)) by (assumption || lia).
  change (15 + 15) with 30.
  rewrite Z.lxor_0_r.
  set (a := Z.shiftr x 15). set (b := Z.shiftr x 30).
  rewrite (Z.lxor_assoc (Z.lxor x a) b (Z.lxor a b)).
  rewrite (Z.lxor_comm a b), <- (Z.lxor_assoc b b a).
  rewrite Z.lxor_nilpotent, Z.lxor_0_l.
  rewrite Z.lxor_assoc, Z.lxor_nilpotent, Z.lxor_0_r. reflexivity.
Qed.

Lemma xorshift_bound32 (n x : Z) :
  0 <= n -> 0 <= x < 2 ^ 32 -> 0 <= xorshift_right n x < 2 ^ 32.
Proof. intros Hn Hx. apply xorshift_right_bound; assumption. Qed.

Lemma unxorshift15_bound32 (x : Z) :
  0 <= x < 2 ^ 32 -> 0 <= unxorshift15 x < 2 ^ 32.
Proof.
  intros Hx. unfold unxorshift15.
  apply lxor_bound32; [apply lxor_bound32|]; try assumption;
    apply shiftr_bound32; (assumption || lia).
Qed.

(** Multiplication by an odd constant is undone by multiplication by its
    inverse modulo 2^32. *)
Lemma mul_mod32_inverse (c d x : Z) :
  (c * d) mod 2 ^ 32 = 1 -> 0 <= x < 2 ^ 32 ->
  mul_mod32 d (mul_mod32 c x) = x.
Proof.
  intros Hcd Hx. unfold mul_mod32.
  rewrite Z.mul_mod_idemp_l by lia.
  rewrite <- Z.mul_assoc, <- Z.mul_mod_idemp_r, Hcd by lia.
  rewrite Z.mul_1_r. apply Z.mod_small, Hx.
Qed.

Lemma hash32_reference_left (v : Z) :
  0 <= v < 2 ^ 32 -> hash32_inverse (hash32_reference v) = v.
Proof.
  intros Hv. unfold hash32_inverse, hash32_reference. cbv zeta.
  rewrite (Z.mod_small v) by exact Hv.
  set (a := xorshift_right 16 v).
  assert (Ha : 0 <= a < 2 ^ 32) by (apply xorshift_bound32; (assumption || lia)).
  set (b := mul_mod32 0x7feb352d a).
  assert (Hb : 0 <= b < 2 ^ 32) by apply mul_mod32_bound.
  set (c := xorshift_right 15 b).
  assert (Hc : 0 <= c < 2 ^ 32) by (apply xorshift_bound32; (assumption || lia)).
  set (d := mul_mod32 0x846ca68b c).
  assert (Hd : 0 <= d < 2 ^ 32) by apply mul_mod32_bound.
  rewrite (Z.mod_small (xorshift_right 16 d))
    by (apply xorshift_bound32; (assumption || lia)).
  rewrite xorshift16_involutive by exact Hd. subst d.
  rewrite mul_mod32_inverse by (reflexivity || assumption). subst c.
  rewrite unxorshift15_xorshift by exact Hb. subst b.
  rewrite mul_mod32_inverse by (reflexivity || assumption). subst a.
  apply xorshift16_involutive, Hv.
Qed.

Lemma hash32_reference_right (v : Z) :
  0 <= v < 2 ^ 32 -> hash32_reference (hash32_inverse v) = v.
Proof.
  intros Hv. unfold hash32_inverse, hash32_reference. cbv zeta.
  rewrite (Z.mod_small v) by exact Hv.
  set (a := xorshift_right 16 v).
  assert (Ha : 0 <= a < 2 ^ 32) by (apply xorshift_bound32; (assumption || lia)).
  set (b := mul_mod32 0x43021123 a).
  assert (Hb : 0 <= b < 2 ^ 32) by apply mul_mod32_bound.
  set (c := unxorshift15 b).
  assert (Hc : 0 <= c < 2 ^ 32) by (apply unxorshift15_bound32; assumption).
  set (d := mul_mod32 0x1d69e2a5 c).
  assert (Hd : 0 <= d < 2 ^ 32) by apply mul_mod32_bound.
  rewrite (Z.mod_small (xorshift_right 16 d))
    by (apply xorshift_bound32; (assumption || lia)).
  rewrite xorshift16_involutive by exact Hd. subst d.
  rewrite mul_mod32_inverse by (reflexivity || assumption). subst c.
  rewrite xorshift_unxorshift15 by exact Hb. subst b.
  rewrite mul_mod32_inverse by (reflexivity || assumption). subst a.
  apply xorshift16_involutive, Hv.
Qed.

Lemma hash32_mod (v : Z) : hash32 (v mod 2 ^ 32) = hash32 v.
Proof.
  rewrite !hash32_unfold. unfold hash32_reference.
  rewrite Z.mod_mod by lia. reflexivity.
Qed.

Lemma hash32_inverse_bound (v : Z) : 0 <= hash32_inverse v < 2 ^ 32.
Proof.
  unfold hash32_inverse. cbv zeta.
  apply xorshift_bound32; [lia | apply mul_mod32_bound].
Qed.

(** X1.  [hash32] is a permutation of the 32-bit values: [hash32_inverse]
    undoes it on both sides, so two integers have the same hash exactly when
    they agree modulo 2^32. *)
Theorem hash32_permutation (a b : Z) :
  hash32_inverse (hash32 a) = a mod 2 ^ 32
  /\ hash32 (hash32_inverse a) = a mod 2 ^ 32
  /\ (hash32 a = hash32 b <-> a mod 2 ^ 32 = b mod 2 ^ 32).
Proof.
  assert (L : forall v, hash32_inverse (hash32 v) = v mod 2 ^ 32).
  { intros v. rewrite <- hash32_mod, hash32_unfold.
    apply hash32_reference_left, Z.mod_pos_bound. lia. }
  split; [apply L|]. split.
  - rewrite hash32_unfold.
    assert (E : hash32_inverse a = hash32_inverse (a mod 2 ^ 32)).
    { unfold hash32_inverse. cbv zeta. rewrite Z.mod_mod by lia. reflexivity. }
    rewrite E. apply hash32_reference_right, Z.mod_pos_bound. lia.
  - split.
    + intros H. rewrite <- (L a), <- (L b), H. reflexivity.
    + intros H. rewrite <- (hash32_mod a), <- (hash32_mod b), H. reflexivity.
Qed.

End HashPermutation.

Section HashPeriod.
Local Open Scope Z_scope.

Lemma land_lxor_distr (a b c : Z) :
  Z.land (Z.lxor a b) c = Z.lxor (Z.land a c) (Z.land b c).
Proof.
  apply Z.bits_inj'. intros n _.
  rewrite Z.land_spec, !Z.lxor_spec, !Z.land_spec.
  destruct (Z.testbit a n), (Z.testbit b n), (Z.testbit c n); reflexivity.
Qed.

Lemma hash2d_unfold (x y seed : Z) :
  hash2d x y seed
  = hash32 (Z.lxor (hash32 ((x + seed * 0x9e3779b1) mod 2 ^ 32))
                   (hash32 (Z.lxor (y mod 2 ^ 32)
                                   ((seed * 0x85ebca6b) mod 2 ^ 32)))).
Proof.
  unfold hash2d. cbv zeta.
  rewrite (land_mask32 (x + _)).
  rewrite mask32_ones, land_lxor_distr, !Z.land_ones by lia.
  reflexivity.
Qed.

Lemma hash2d_reduce (x y seed : Z) :
  hash2d x y seed = hash2d (x mod 2 ^ 32) (y mod 2 ^ 32) (seed mod 2 ^ 32).
Proof.
  rewrite !hash2d_unfold.
  rewrite (Z.mod_mod y) by lia.
  rewrite (Z.mul_mod_idemp_l seed) by lia.
  rewrite Z.add_mod_idemp_l by lia.
  rewrite <- (Z.add_mod_idemp_r x (seed mod 2 ^ 32 * _)) by lia.
  rewrite (Z.mul_mod_idemp_l seed) by lia.
  rewrite Z.add_mod_idemp_r by lia.
  reflexivity.
Qed.

Lemma hash2d_shift_x (x y seed k : Z) :
  hash2d (x + k * 2 ^ 32) y seed = hash2d x y seed.
Proof.
  rewrite (hash2d_reduce (x + k * 2 ^ 32)), (hash2d_reduce x y seed).
  rewrite Z.mod_add by lia. reflexivity.
Qed.

Lemma hash2d_shift_y (x y seed k : Z) :
  hash2d x (y + k * 2 ^ 32) seed = hash2d x y seed.
Proof.
  rewrite (hash2d_reduce x (y + k * 2 ^ 32)), (hash2d_reduce x y seed).
  rewrite Z.mod_add by lia. reflexivity.
Qed.

(** X2.  [hash2d] reads only the low 32 bits of each of its three
    arguments (negative arguments included): coordinates and seed can be
    reduced modulo 2^32, and the hash has period 2^32 in each of them. *)
Theorem hash2d_low_bits (x y seed k : Z) :
  hash2d x y seed = hash2d (x mod 2 ^ 32) (y mod 2 ^ 32) (seed mod 2 ^ 32)
  /\ hash2d (x + k * 2 ^ 32) y seed = hash2d x y seed
  /\ hash2d x (y + k * 2 ^ 32) seed = hash2d x y seed
  /\ hash2d x y (seed + k * 2 ^ 32) = hash2d x y seed.
Proof.
  split; [apply hash2d_reduce|].
  split; [apply hash2d_shift_x|].
  split; [apply hash2d_shift_y|].
  rewrite (hash2d_reduce x y (seed + k * 2 ^ 32)), (hash2d_reduce x y seed).
  rewrite Z.mod_add by lia. reflexivity.
Qed.

Lemma hash32_0 : hash32 0 = 0.
Proof. reflexivity. Qed.

Lemma hash2d_seed0 (x y : Z) :
  hash2d x y 0 = hash32 (Z.lxor (hash32 x) (hash32 y)).
Proof.
  rewrite hash2d_unfold. rewrite Z.mul_0_l, Z.add_0_r.
  change (0 mod 2 ^ 32) with 0. rewrite Z.lxor_0_r, !hash32_mod.
  reflexivity.
Qed.

Lemma hash2d_seed0_comm (x y : Z) : hash2d x y 0 = hash2d y x 0.
Proof. rewrite !hash2d_seed0, Z.lxor_comm. reflexivity. Qed.

Lemma hash2d_seed0_diag (x : Z) : hash2d x x 0 = 0.
Proof. rewrite hash2d_seed0, Z.lxor_nilpotent. apply hash32_0. Qed.

(** X3.  With the default seed 0 the lattice hash is symmetric in its two
    coordinates, and it is 0 at every lattice point of the diagonal. *)
Theorem hash2d_seed0_symmetric (x y : Z) :
  hash2d x y 0 = hash2d y x 0 /\ hash2d x x 0 = 0.
Proof. split; [apply hash2d_seed0_comm | apply hash2d_seed0_diag]. Qed.

End HashPeriod.

(** ** More on the scalar utilities *)

Section ScalarsMore.

Lemma to_unit_double_lt (a b : Z) :
  (a < b)%Z -> to_unit_double a < to_unit_double b.
Proof.
  intros H. unfold to_unit_double, Rdiv.
  apply Rmult_lt_compat_r; [apply Rinv_0_lt_compat; lra | apply IZR_lt, H].
Qed.

Lemma to_unit_double_le (a b : Z) :
  (a <= b)%Z -> to_unit_double a <= to_unit_double b.
Proof.
  intros H. unfold to_unit_double, Rdiv.
  apply Rmult_le_compat_r;
    [apply Rlt_le, Rinv_0_lt_compat; lra | apply IZR_le, H].
Qed.

Lemma to_unit_double_0 : to_unit_double 0 = 0.
Proof. unfold to_unit_double. lra. Qed.

Lemma to_unit_double_max : to_unit_double 0xFFFFFFFF = 1.
Proof. unfold to_unit_double. lra. Qed.



(** The increment of [fade] over an interval is the length of the interval
    times 30 times a sum of squares (the integral of the square of
    [t * (t - 1)] over the interval, 30 t^2 (t - 1)^2 being the
    derivative). *)
Lemma fade_increment (a b : R) :
  fade b - fade a
  = (b - a) * 30
    * ((a * (a - 1) + (b - a) * (2 * a - 1) / 2 + (b - a) * (b - a) / 3)
       * (a * (a - 1) + (b - a) * (2 * a - 1) / 2 + (b - a) * (b - a) / 3)
       + ((b - a) * (2 * a - 1) + (b - a) * (b - a))
         * ((b - a) * (2 * a - 1) + (b - a) * (b - a)) / 12
       + (b - a) * (b - a) * ((b - a) * (b - a)) / 180).
Proof. unfold fade. field. Qed.

Lemma fade_monotone (a b : R) : a <= b -> fade a <= fade b.
Proof.
  intros H. pose proof (fade_increment a b) as E.
  assert (0 <= fade b - fade a); [|lra]. rewrite E. clear E.
  set (p := a * (a - 1) + (b - a) * (2 * a - 1) / 2 + (b - a) * (b - a) / 3).
  set (q := (b - a) * (2 * a - 1) + (b - a) * (b - a)).
  set (r := (b - a) * (b - a)).
  pose proof (Rle_0_sqr p) as Hp. pose proof (Rle_0_sqr q) as Hq.
  pose proof (Rle_0_sqr r) as Hr. unfold Rsqr in Hp, Hq, Hr.
  apply Rmult_le_pos; [apply Rmult_le_pos; lra | lra].
Qed.

Lemma fade_half : fade (1 / 2) = 1 / 2.
Proof. unfold fade. field. Qed.





End ScalarsMore.

(** ** More on value noise *)

Section ValueMore.
Import ValueNoise2D.

Lemma floor_shift (x : R) (n : Z) : floor (x + IZR n) = (floor x + n)%Z.
Proof.
  apply floor_unique. rewrite plus_IZR. pose proof (floor_spec x). lra.
Qed.

Lemma frac_shift (x : R) (n : Z) :
  x + IZR n - IZR (floor (x + IZR n)) = x - IZR (floor x).
Proof. rewrite floor_shift, plus_IZR. ring. Qed.

Lemma lattice_value_shift_x (self : t) (ix iy k : Z) :
  _lattice_value self (ix + k * 2 ^ 32) iy = _lattice_value self ix iy.
Proof. unfold _lattice_value. cbv zeta. now rewrite hash2d_shift_x. Qed.

Lemma lattice_value_shift_y (self : t) (ix iy k : Z) :
  _lattice_value self ix (iy + k * 2 ^ 32) = _lattice_value self ix iy.
Proof. unfold _lattice_value. cbv zeta. now rewrite hash2d_shift_y. Qed.

Lemma value_sample_shift_x (self : t) (x y : R) (k : Z) :
  sample self (x + IZR (k * 2 ^ 32)) y = sample self x y.
Proof.
  unfold sample. cbv zeta. rewrite frac_shift, floor_shift.
  replace (floor x + k * 2 ^ 32 + 1)%Z with (floor x + 1 + k * 2 ^ 32)%Z by lia.
  rewrite !lattice_value_shift_x. reflexivity.
Qed.

Lemma value_sample_shift_y (self : t) (x y : R) (k : Z) :
  sample self x (y + IZR (k * 2 ^ 32)) = sample self x y.
Proof.
  unfold sample. cbv zeta. rewrite frac_shift, floor_shift.
  replace (floor y + k * 2 ^ 32 + 1)%Z with (floor y + 1 + k * 2 ^ 32)%Z by lia.
  rewrite !lattice_value_shift_y. reflexivity.
Qed.

(** X7.  Value noise tiles with period 2^32 along both axes, and two seeds
    that agree modulo 2^32 give the same field. *)
Theorem value_noise_period (seed k : Z) (x y : R) :
  sample (init seed) (x + IZR (k * 2 ^ 32)) y = sample (init seed) x y
  /\ sample (init seed) x (y + IZR (k * 2 ^ 32)) = sample (init seed) x y
  /\ sample (init (seed + k * 2 ^ 32)) x y = sample (init seed) x y.
Proof.
  split; [apply value_sample_shift_x|].
  split; [apply value_sample_shift_y|].
  unfold sample, _lattice_value. cbv zeta. cbn [ValueNoise2D.seed init].
  assert (E : forall a b, hash2d a b (seed + k * 2 ^ 32) = hash2d a b seed).
  { intros a b.
    rewrite (hash2d_reduce a b (seed + k * 2 ^ 32)), (hash2d_reduce a b seed).
    rewrite Z.mod_add by lia. reflexivity. }
  rewrite !E. reflexivity.
Qed.


End ValueMore.

(** ** More on fBm: the closed form of the loop *)

Section SumBelow.

Lemma sum_below_ext (f g : nat -> R) (n : nat) :
  (forall k, (k < n)%nat -> f k = g k) -> sum_below f n = sum_below g n.
Proof.
  induction n as [|n IH]; intros H; simpl; [reflexivity|].
  rewrite IH, (H n) by (intros; try apply H; lia). reflexivity.
Qed.

Lemma sum_below_front (f : nat -> R) (n : nat) :
  sum_below f (S n) = f 0%nat + sum_below (fun k => f (S k)) n.
Proof.
  induction n as [|n IH]; [simpl; ring|].
  change (sum_below f (S (S n))) with (sum_below f (S n) + f (S n)).
  rewrite IH. simpl. ring.
Qed.

Lemma sum_below_scale (c : R) (f : nat -> R) (n : nat) :
  sum_below (fun k => c * f k) n = c * sum_below f n.
Proof. induction n as [|n IH]; simpl; [ring | rewrite IH; ring]. Qed.

Lemma sum_below_zero (n : nat) : sum_below (fun _ => 0) n = 0.
Proof. induction n as [|n IH]; simpl; [reflexivity | rewrite IH; ring]. Qed.

Lemma sum_below_alternating (m : nat) :
  sum_below (fun k => (-1) ^ k) (2 * m) = 0.
Proof.
  induction m as [|m IH]; [reflexivity|].
  replace (2 * S m)%nat with (S (S (2 * m))) by lia.
  cbn [sum_below]. rewrite IH.
  replace (S (2 * m)) with (2 * m + 1)%nat by lia.
  rewrite pow_add, pow_1_even. simpl. ring.
Qed.

End SumBelow.

Section FBMClosedForm.
Import FBMValueNoise2D.

Lemma octave_loop_closed (self : t) (x y : R) (n : nat) (s : locals) :
  let s' := octave_loop self x y n s in
  amp s' = amp s * gain self ^ n
  /\ freq s' = freq s * lacunarity self ^ n
  /\ amp_sum s' = amp_sum s + sum_below (fun k => amp s * gain self ^ k) n
  /\ total s'
     = total s
       + sum_below (fun k => amp s * gain self ^ k
                             * octave_sample self x y (freq s) k) n.
Proof.
  cbv zeta. revert s. induction n as [|n IH]; intros s.
  - simpl. repeat split; ring.
  - cbn [octave_loop]. destruct (IH (octave self x y s)) as (Ha & Hf & Hs & Ht).
    rewrite Ha, Hf, Hs, Ht. rewrite !sum_below_front.
    unfold octave; cbn [amp freq total amp_sum].
    repeat split.
    + simpl. ring.
    + simpl. ring.
    + rewrite (sum_below_ext (fun k => amp s * gain self * gain self ^ k)
                 (fun k => amp s * gain self ^ S k))
        by (intros; simpl; ring).
      simpl. ring.
    + rewrite (sum_below_ext
                 (fun k => amp s * gain self * gain self ^ k
                           * octave_sample self x y
                               (freq s * lacunarity self) k)
                 (fun k => amp s * gain self ^ S k
                           * octave_sample self x y (freq s) (S k))).
      * unfold octave_sample. simpl. rewrite !Rmult_1_r. ring.
      * intros k _. unfold octave_sample. simpl.
        replace (freq s * lacunarity self * lacunarity self ^ k)
          with (freq s * (lacunarity self * lacunarity self ^ k)) by ring.
        ring.
Qed.

Lemma run_closed (self : t) (x y : R) :
  let n := Z.to_nat (octaves self) in
  amp_sum (run self x y) = sum_below (fun k => gain self ^ k) n
  /\ total (run self x y)
     = sum_below (fun k => gain self ^ k * octave_sample self x y 1 k) n.
Proof.
  cbv zeta. unfold run.
  destruct (octave_loop_closed self x y (Z.to_nat (octaves self)) locals0)
    as (_ & _ & Hs & Ht).
  rewrite Hs, Ht. cbn [amp freq total amp_sum locals0]. split.
  - rewrite Rplus_0_l. apply sum_below_ext. intros; ring.
  - rewrite Rplus_0_l. apply sum_below_ext. intros; ring.
Qed.

End FBMClosedForm.

Section FBMEdge.
Import FBMValueNoise2D.



Lemma even_to_nat (z : Z) :
  Z.even z = true -> exists m, Z.to_nat z = (2 * m)%nat.
Proof.
  intros H. apply Z.even_spec in H. destruct H as [q ->].
  exists (Z.to_nat q). lia.
Qed.



Lemma sample_constant_octaves (self : t) (x y c : R) :
  (1 <= octaves self)%Z -> 0 < gain self ->
  (forall k, octave_sample self x y 1 k = c) ->
  sample self x y = Return c.
Proof.
  intros Ho Hg Hc.
  destruct (run_weighted self x y Ho Hg) as [Hpos _].
  destruct (run_closed self x y) as [Hs Ht].
  rewrite sample_returns by lra. f_equal.
  rewrite Hs in Hpos. rewrite Ht, Hs.
  rewrite (sum_below_ext
             (fun k => gain self ^ k * octave_sample self x y 1 k)
             (fun k => c * gain self ^ k))
    by (intros; rewrite Hc; ring).
  rewrite sum_below_scale.
  change (pow (gain self)) with (fun k => gain self ^ k).
  set (w := sum_below (fun k => gain self ^ k) (Z.to_nat (octaves self))) in *.
  field. lra.
Qed.

Lemma sample_zero_gain (self : t) (x y : R) :
  (1 <= octaves self)%Z -> gain self = 0 ->
  sample self x y = Return (ValueNoise2D.sample (base self) x y).
Proof.
  intros Ho Hg.
  destruct (run_closed self x y) as [Hs Ht].
  destruct (Z.to_nat (octaves self)) as [|n] eqn:En; [lia|].
  rewrite sum_below_front in Hs, Ht.
  rewrite (sum_below_ext _ (fun _ => 0)) in Hs
    by (intros; rewrite Hg; simpl; ring).
  rewrite (sum_below_ext _ (fun _ => 0)) in Ht
    by (intros; rewrite Hg; simpl; ring).
  rewrite sum_below_zero in Hs, Ht.
  unfold octave_sample in Ht. simpl in Hs, Ht.
  rewrite !Rmult_1_r in Ht.
  rewrite sample_returns by (rewrite Hs; lra).
  rewrite Hs, Ht. f_equal. field.
Qed.



End FBMEdge.

(** ** More on Perlin noise: the clamp is never active *)

Section PerlinMore.
Import PerlinNoise2D.

Lemma gradients_bounded :
  Forall (fun g => -1 <= fst g <= 1 /\ -1 <= snd g <= 1) _gradients.
Proof.
  unfold _gradients.
  repeat apply Forall_cons; try apply Forall_nil; simpl; lra.
Qed.

Lemma gradient_bounded (self : t) (ix iy : Z) :
  -1 <= fst (_gradient self ix iy) <= 1
  /\ -1 <= snd (_gradient self ix iy) <= 1.
Proof.
  pose proof (gradient_lookup self ix iy) as H. apply nth_error_In in H.
  pose proof gradients_bounded as F. rewrite Forall_forall in F.
  apply (F _ H).
Qed.

(** A dot product with a palette gradient is bounded by the sum of the
    absolute displacements. *)
Lemma dot_grid_gradient_bound (self : t) (ix iy : Z) (x y a b : R) :
  - a <= x - IZR ix <= a -> - b <= y - IZR iy <= b ->
  - (a + b) <= _dot_grid_gradient self ix iy x y <= a + b.
Proof.
  intros Ha Hb. unfold _dot_grid_gradient.
  pose proof (gradient_bounded self ix iy) as [Hx Hy].
  destruct (_gradient self ix iy) as [gx gy]. simpl in Hx, Hy. cbv zeta.
  assert (- a <= gx * (x - IZR ix) <= a) by (split; nra).
  assert (- b <= gy * (y - IZR iy) <= b) by (split; nra).
  lra.
Qed.

Lemma lerp_bound (a b t A B : R) :
  0 <= t <= 1 -> - A <= a <= A -> - B <= b <= B ->
  - ((1 - t) * A + t * B) <= lerp a b t <= (1 - t) * A + t * B.
Proof.
  intros Ht Ha Hb.
  replace (lerp a b t) with ((1 - t) * a + t * b) by (unfold lerp; ring).
  split; nra.
Qed.

(** The fade weight is on the same side of 1/2 as its argument. *)
Lemma fade_side (f : R) : 0 <= (1 - 2 * f) * (1 / 2 - fade f).
Proof.
  destruct (Rle_lt_dec f (1 / 2)) as [H|H].
  - pose proof (fade_monotone f (1 / 2) H) as M. rewrite fade_half in M.
    apply Rmult_le_pos; lra.
  - pose proof (fade_monotone (1 / 2) f (Rlt_le _ _ H)) as M.
    rewrite fade_half in M.
    replace ((1 - 2 * f) * (1 / 2 - fade f))
      with ((2 * f - 1) * (fade f - 1 / 2)) by field.
    apply Rmult_le_pos; lra.
Qed.

Lemma interpolated_bound (self : t) (x y : R) :
  -1 <= interpolated self x y <= 1.
Proof.
  unfold interpolated. cbv zeta.
  pose proof (floor_frac x) as Hfx. pose proof (floor_frac y) as Hfy.
  set (fx := x - IZR (floor x)) in *. set (fy := y - IZR (floor y)) in *.
  assert (Hu : 0 <= fade fx <= 1) by (apply fade_range; lra).
  assert (Hv : 0 <= fade fy <= 1) by (apply fade_range; lra).
  pose proof (fade_side fx) as Sx. pose proof (fade_side fy) as Sy.
  assert (Ex : x - IZR (floor x + 1) = fx - 1)
    by (unfold fx; rewrite plus_IZR; ring).
  assert (Ey : y - IZR (floor y + 1) = fy - 1)
    by (unfold fy; rewrite plus_IZR; ring).
  assert (N00 : - (fx + fy)
                <= _dot_grid_gradient self (floor x) (floor y) x y
                <= fx + fy)
    by (apply dot_grid_gradient_bound; fold fx; fold fy; lra).
  assert (N10 : - ((1 - fx) + fy)
                <= _dot_grid_gradient self (floor x + 1) (floor y) x y
                <= (1 - fx) + fy)
    by (apply dot_grid_gradient_bound; rewrite ?Ex; fold fy; lra).
  assert (N01 : - (fx + (1 - fy))
                <= _dot_grid_gradient self (floor x) (floor y + 1) x y
                <= fx + (1 - fy))
    by (apply dot_grid_gradient_bound; rewrite ?Ey; fold fx; lra).
  assert (N11 : - ((1 - fx) + (1 - fy))
                <= _dot_grid_gradient self (floor x + 1) (floor y + 1) x y
                <= (1 - fx) + (1 - fy))
    by (apply dot_grid_gradient_bound; rewrite ?Ex, ?Ey; lra).
  pose proof (lerp_bound _ _ _ _ _ Hu N00 N10) as L0.
  pose proof (lerp_bound _ _ _ _ _ Hu N01 N11) as L1.
  pose proof (lerp_bound _ _ _ _ _ Hv L0 L1) as L.
  set (u := fade fx) in *. set (v := fade fy) in *.
  assert (B : (1 - v) * ((1 - u) * (fx + fy) + u * (1 - fx + fy))
              + v * ((1 - u) * (fx + (1 - fy)) + u * (1 - fx + (1 - fy)))
              = 1 - (1 - 2 * fx) * (1 / 2 - u) - (1 - 2 * fy) * (1 / 2 - v))
    by field.
  rewrite B in L. lra.
Qed.

(** X12.  The value interpolated from the four dot products always lies in
    [-1, 1], so the final clamp of Perlin noise never changes anything:
    [sample] is [value * 0.5 + 0.5]. *)
Theorem perlin_clamp_inactive (seed : Z) (x y : R) :
  -1 <= interpolated (init seed) x y <= 1
  /\ sample (init seed) x y = interpolated (init seed) x y * 0.5 + 0.5.
Proof.
  pose proof (interpolated_bound (init seed) x y) as H.
  split; [exact H|].
  rewrite perlin_sample_clamp. apply clamp01_id. lra.
Qed.

End PerlinMore.

(** ** Tiling of Perlin and Worley noise *)

Section PerlinPeriod.
Import PerlinNoise2D.

Lemma gradient_shift_x (self : t) (ix iy k : Z) :
  _gradient self (ix + k * 2 ^ 32) iy = _gradient self ix iy.
Proof. unfold _gradient. cbv zeta. now rewrite hash2d_shift_x. Qed.

Lemma gradient_shift_y (self : t) (ix iy k : Z) :
  _gradient self ix (iy + k * 2 ^ 32) = _gradient self ix iy.
Proof. unfold _gradient. cbv zeta. now rewrite hash2d_shift_y. Qed.

Lemma dot_grid_gradient_shift_x (self : t) (ix iy k : Z) (x y : R) :
  _dot_grid_gradient self (ix + k * 2 ^ 32) iy (x + IZR (k * 2 ^ 32)) y
  = _dot_grid_gradient self ix iy x y.
Proof.
  unfold _dot_grid_gradient. rewrite gradient_shift_x.
  destruct (_gradient self ix iy) as [gx gy]. cbv zeta.
  rewrite plus_IZR. ring.
Qed.

Lemma dot_grid_gradient_shift_y (self : t) (ix iy k : Z) (x y : R) :
  _dot_grid_gradient self ix (iy + k * 2 ^ 32) x (y + IZR (k * 2 ^ 32))
  = _dot_grid_gradient self ix iy x y.
Proof.
  unfold _dot_grid_gradient. rewrite gradient_shift_y.
  destruct (_gradient self ix iy) as [gx gy]. cbv zeta.
  rewrite plus_IZR. ring.
Qed.

(** X13.  Perlin noise tiles with period 2^32 along both axes. *)
Theorem perlin_noise_period (seed k : Z) (x y : R) :
  sample (init seed) (x + IZR (k * 2 ^ 32)) y = sample (init seed) x y
  /\ sample (init seed) x (y + IZR (k * 2 ^ 32)) = sample (init seed) x y.
Proof.
  split.
  - unfold sample, interpolated. cbv zeta. rewrite frac_shift, floor_shift.
    replace (floor x + k * 2 ^ 32 + 1)%Z
      with (floor x + 1 + k * 2 ^ 32)%Z by lia.
    rewrite !dot_grid_gradient_shift_x. reflexivity.
  - unfold sample, interpolated. cbv zeta. rewrite frac_shift, floor_shift.
    replace (floor y + k * 2 ^ 32 + 1)%Z
      with (floor y + 1 + k * 2 ^ 32)%Z by lia.
    rewrite !dot_grid_gradient_shift_y. reflexivity.
Qed.

End PerlinPeriod.

Section WorleyPeriod.
Import WorleyNoise2D.

Lemma fold_left_ext {A : Type} (F G : R -> A -> R) (l : list A) (m : R) :
  (forall m a, F m a = G m a) -> fold_left F l m = fold_left G l m.
Proof.
  intros H. revert m. induction l as [|a l IH]; intros m; simpl;
    [reflexivity | rewrite H; apply IH].
Qed.

Lemma dist2_shift_x (self : t) (x y : R) (cx cy k : Z) :
  dist2 self (x + IZR (k * 2 ^ 32)) y (cx + k * 2 ^ 32) cy
  = dist2 self x y cx cy.
Proof.
  unfold dist2, _feature_point. cbv zeta.
  rewrite hash2d_shift_x, plus_IZR. ring.
Qed.

Lemma dist2_shift_y (self : t) (x y : R) (cx cy k : Z) :
  dist2 self x (y + IZR (k * 2 ^ 32)) cx (cy + k * 2 ^ 32)
  = dist2 self x y cx cy.
Proof.
  unfold dist2, _feature_point. cbv zeta.
  rewrite hash2d_shift_y, plus_IZR. ring.
Qed.

Lemma scan_shift_x (self : t) (x y : R) (k : Z) :
  scan self (x + IZR (k * 2 ^ 32)) y = scan self x y.
Proof.
  unfold scan. cbv zeta. rewrite floor_shift.
  apply fold_left_ext. intros m j. unfold scan_row.
  apply fold_left_ext. intros m' i. unfold visit. cbv zeta.
  replace (floor x + k * 2 ^ 32 + i)%Z
    with (floor x + i + k * 2 ^ 32)%Z by lia.
  rewrite dist2_shift_x. reflexivity.
Qed.

Lemma scan_shift_y (self : t) (x y : R) (k : Z) :
  scan self x (y + IZR (k * 2 ^ 32)) = scan self x y.
Proof.
  unfold scan. cbv zeta. rewrite floor_shift.
  apply fold_left_ext. intros m j. unfold scan_row.
  apply fold_left_ext. intros m' i. unfold visit. cbv zeta.
  replace (floor y + k * 2 ^ 32 + j)%Z
    with (floor y + j + k * 2 ^ 32)%Z by lia.
  rewrite dist2_shift_y. reflexivity.
Qed.


End WorleyPeriod.

(** ** The Worley scan returns the minimum of the nine distances *)

Section WorleyMinimum.
Import WorleyNoise2D.

Lemma fold_left_invariant {A : Type} (F : R -> A -> R) (P : R -> Prop)
    (l : list A) (m : R) :
  (forall m a, In a l -> P m -> P (F m a)) -> P m -> P (fold_left F l m).
Proof.
  revert m. induction l as [|a l IH]; intros m H Hm; simpl; [exact Hm|].
  apply IH.
  - intros m' a' Ha'. apply H. right. exact Ha'.
  - apply H; [left; reflexivity | exact Hm].
Qed.

Lemma scan_row_attained (self : t) (x y : R) (x_int y_int : Z) (m : R) (j : Z) :
  scan_row self x y x_int y_int m j = m
  \/ exists i, In i offsets
       /\ scan_row self x y x_int y_int m j
          = dist2 self x y (x_int + i) (y_int + j).
Proof.
  unfold scan_row.
  apply (fold_left_invariant (visit self x y x_int y_int j)
           (fun v => v = m \/ exists i, In i offsets
                        /\ v = dist2 self x y (x_int + i) (y_int + j)));
    [|left; reflexivity].
  intros m' i Hi Hm'. unfold visit. cbv zeta.
  destruct (Rlt_dec _ m'); [|exact Hm'].
  right. exists i. split; [exact Hi | reflexivity].
Qed.

Lemma scan_attained_or_initial (self : t) (x y : R) :
  scan self x y = 1e9
  \/ exists i j, In i offsets /\ In j offsets
       /\ scan self x y = dist2 self x y (floor x + i) (floor y + j).
Proof.
  unfold scan. cbv zeta.
  apply (fold_left_invariant (scan_row self x y (floor x) (floor y))
           (fun v => v = 1e9 \/ exists i j, In i offsets /\ In j offsets
                        /\ v = dist2 self x y (floor x + i) (floor y + j)));
    [|left; reflexivity].
  intros m j Hj Hm.
  destruct (scan_row_attained self x y (floor x) (floor y) m j)
    as [->|(i & Hi & ->)]; [exact Hm|].
  right. exists i, j. repeat split; assumption.
Qed.

Lemma scan_attained (self : t) (x y : R) :
  exists i j, In i offsets /\ In j offsets
    /\ scan self x y = dist2 self x y (floor x + i) (floor y + j).
Proof.
  destruct (scan_attained_or_initial self x y) as [E|H]; [|exact H].
  pose proof (scan_le_2 self x y). lra.
Qed.

(** X15.  The scan returns the minimum of the squared distances to the nine
    feature points: it is below each of them and equal to one of them; the
    initial value 1e9 of [min_dist2] is never what comes out. *)
Theorem worley_scan_minimum (seed : Z) (x y : R) :
  (forall i j, In i offsets -> In j offsets ->
     scan (init seed) x y
     <= dist2 (init seed) x y (floor x + i) (floor y + j))
  /\ (exists i j, In i offsets /\ In j offsets
        /\ scan (init seed) x y
           = dist2 (init seed) x y (floor x + i) (floor y + j))
  /\ scan (init seed) x y < 1e9.
Proof.
  split; [intros i j Hi Hj; apply scan_le_dist2; assumption|].
  split; [apply scan_attained|].
  pose proof (scan_le_2 (init seed) x y). lra.
Qed.

Lemma worley_scan_minimum_witness :
  In 0%Z offsets /\ In 1%Z offsets
  /\ scan (init 1234) 0.25 0.75
     <= dist2 (init 1234) 0.25 0.75 (floor 0.25 + 0) (floor 0.75 + 1).
Proof.
  assert (H0 : In 0%Z offsets) by (unfold offsets; simpl; auto).
  assert (H1 : In 1%Z offsets) by (unfold offsets; simpl; auto).
  split; [exact H0|]. split; [exact H1|].
  apply (worley_scan_minimum 1234 0.25 0.75); assumption.
Defined.

Lemma dist2_zero (self : t) (x y : R) (cx cy : Z) :
  dist2 self x y cx cy = 0 -> _feature_point self cx cy = (x, y).
Proof.
  unfold dist2. destruct (_feature_point self cx cy) as [px py]. cbv zeta.
  intros H.
  pose proof (Rle_0_sqr (px - x)) as Hx. pose proof (Rle_0_sqr (py - y)) as Hy.
  unfold Rsqr in Hx, Hy.
  assert (Zx : (px - x) * (px - x) = 0) by lra.
  assert (Zy : (py - y) * (py - y) = 0) by lra.
  apply Rmult_integral in Zx. apply Rmult_integral in Zy.
  f_equal; lra.
Qed.


End WorleyMinimum.

(** ** Image export *)

Section ExportHeader.
Import Exporter.

Lemma all_ascii_append (s1 s2 : String.string) :
  all_ascii s1 -> all_ascii s2 -> all_ascii (String.append s1 s2).
Proof.
  unfold all_ascii. intros H1 H2. induction s1 as [|c s1 IH]; simpl in *.
  - exact H2.
  - apply andb_true_iff in H1. destruct H1 as [Hc H1].
    rewrite Hc, (IH H1). reflexivity.
Qed.

Lemma all_ascii_cons (c : Ascii.ascii) (s : String.string) :
  (Ascii.N_of_ascii c <? 128)%N = true -> all_ascii s ->
  all_ascii (String.String c s).
Proof. unfold all_ascii. intros Hc Hs. simpl. rewrite Hc, Hs. reflexivity. Qed.

Lemma all_ascii_uint (d : Decimal.uint) :
  all_ascii (DecimalString.NilEmpty.string_of_uint d).
Proof.
  unfold all_ascii. induction d; simpl; try rewrite IHd; reflexivity.
Qed.

Lemma all_ascii_str (z : Z) : all_ascii (str z).
Proof.
  unfold str, DecimalString.NilZero.string_of_int.
  destruct (Z.to_int z) as [d|d].
  - destruct d; try apply all_ascii_uint. reflexivity.
  - apply all_ascii_cons; [reflexivity|].
    destruct d; try apply all_ascii_uint. reflexivity.
Qed.

Lemma all_ascii_header (width height : Z) : all_ascii (header width height).
Proof.
  unfold header.
  repeat (apply all_ascii_append; [first [apply all_ascii_str | reflexivity]|]).
  reflexivity.
Qed.

Lemma encode_header (width height : Z) :
  encode_ascii (header width height)
  = Some (String.list_byte_of_string (header width height)).
Proof.
  unfold encode_ascii.
  pose proof (all_ascii_header width height) as H. unfold all_ascii in H.
  rewrite H. reflexivity.
Qed.

End ExportHeader.

Section ExportPixels.
Import Exporter.
Context {T : Type} `{Noise T}.

Lemma py_int_nonneg (r : R) : 0 <= r -> py_int r = floor r.
Proof. intros Hr. unfold py_int. destruct (Rlt_dec r 0); [lra | reflexivity]. Qed.

Lemma floor_range (r : R) (a b : Z) :
  IZR a <= r -> r < IZR b + 1 -> (a <= floor r <= b)%Z.
Proof.
  intros Ha Hb. pose proof (floor_spec r) as [H0 H1]. split.
  - assert (IZR a < IZR (floor r) + 1) by lra.
    rewrite <- plus_IZR in *. apply lt_IZR in H2. lia.
  - assert (IZR (floor r) < IZR b + 1) by lra.
    rewrite <- plus_IZR in *. apply lt_IZR in H2. lia.
Qed.

Lemma quantize_range (v : R) : (0 <= quantize v <= 255)%Z.
Proof.
  unfold quantize. pose proof (clamp01_range v). apply floor_range; lra.
Qed.

Lemma quantize_255 (v : R) : quantize v = 255%Z <-> 1 <= v.
Proof.
  unfold quantize. split.
  - intros E. pose proof (floor_spec (clamp01 v * 255)) as [H0 _].
    rewrite E in H0.
    assert (Hc : 1 <= clamp01 v) by lra.
    unfold clamp01, Rmax, Rmin in Hc.
    destruct (Rle_dec 1 v); [assumption|].
    destruct (Rle_dec 0 v); lra.
  - intros Hv.
    assert (Hc : clamp01 v = 1).
    { unfold clamp01, Rmax, Rmin. destruct (Rle_dec 1 v); [|lra].
      destruct (Rle_dec 0 1); lra. }
    rewrite Hc. apply floor_unique. lra.
Qed.

Lemma bytes1_in_range (n : Z) :
  (0 <= n <= 255)%Z ->
  exists b, bytes1 n = Some b /\ Z.of_N (Byte.to_N b) = n.
Proof.
  intros Hn. unfold bytes1.
  destruct (Z.ltb_spec n 0) as [Hlt|_]; [lia|].
  pose proof (Byte.to_of_N_option_map (Z.to_N n)) as M.
  destruct (N.leb_spec (Z.to_N n) 255) as [_|Hgt]; [|lia].
  destruct (Byte.of_N (Z.to_N n)) as [b|]; [|discriminate].
  exists b. split; [reflexivity|]. simpl in M. injection M as ->. lia.
Qed.

Lemma pixel_of_sample (noise : T) (scale : R) (x y : Z) (v : R) :
  noise_sample noise (IZR x * scale) (IZR y * scale) = Return v ->
  exists b, pixel noise scale x y = inr b
            /\ Z.of_N (Byte.to_N b) = quantize v.
Proof.
  intros Hv. unfold pixel. cbv zeta. rewrite Hv, py_clamp.
  pose proof (clamp01_range v) as Hc.
  rewrite py_int_nonneg by lra. fold (quantize v).
  destruct (bytes1_in_range (quantize v) (quantize_range v)) as (b & Hb & E).
  exists b. rewrite Hb. split; [reflexivity | exact E].
Qed.

Lemma pixel_raises (noise : T) (scale : R) (x y : Z) (e : exn) :
  noise_sample noise (IZR x * scale) (IZR y * scale) = Raise e ->
  pixel noise scale x y = inl (Propagated e).
Proof. intros Hv. unfold pixel. cbv zeta. rewrite Hv. reflexivity. Qed.

(** The only exception of [pixel] is the one of [sample]. *)
Lemma pixel_cases (noise : T) (scale : R) (x y : Z) :
  (exists b, pixel noise scale x y = inr b)
  \/ (exists e, pixel noise scale x y = inl (Propagated e)).
Proof.
  destruct (noise_sample noise (IZR x * scale) (IZR y * scale)) as [v|e] eqn:E.
  - left. destruct (pixel_of_sample noise scale x y v E) as (b & Hb & _).
    exists b. exact Hb.
  - right. exists e. apply pixel_raises, E.
Qed.

Lemma write_pixels_all (noise : T) (scale : R) (todo : list (Z * Z))
    (f : list Byte.byte) :
  (forall p, In p todo -> exists b, pixel noise scale (fst p) (snd p) = inr b) ->
  exists bs,
    write_pixels noise scale todo f = (f ++ bs, None)
    /\ Forall2 (fun p b => pixel noise scale (fst p) (snd p) = inr b) todo bs.
Proof.
  revert f. induction todo as [|[x y] todo IH]; intros f Hall.
  - exists []. rewrite app_nil_r. split; [reflexivity | constructor].
  - destruct (Hall (x, y) (or_introl eq_refl)) as [b Hb]. simpl in Hb.
    destruct (IH (f ++ [b])) as (bs & Hw & HF).
    { intros p Hp. apply Hall. right. exact Hp. }
    exists (b :: bs). split.
    + simpl. rewrite Hb, Hw, <- app_assoc. reflexivity.
    + constructor; [exact Hb | exact HF].
Qed.

(** Whatever happens, the loops only append to the file, and they end
    normally or with the exception of a [sample] call. *)
Lemma write_pixels_cases (noise : T) (scale : R) (todo : list (Z * Z))
    (f : list Byte.byte) :
  exists bs,
    fst (write_pixels noise scale todo f) = f ++ bs
    /\ (length bs <= length todo)%nat
    /\ (snd (write_pixels noise scale todo f) = None
        \/ exists e, snd (write_pixels noise scale todo f)
                     = Some (Propagated e)).
Proof.
  revert f. induction todo as [|[x y] todo IH]; intros f.
  - exists []. rewrite app_nil_r. simpl. auto.
  - simpl. destruct (pixel_cases noise scale x y) as [[b Hb]|[e He]].
    + rewrite Hb. destruct (IH (f ++ [b])) as (bs & Hf & Hl & Hr).
      exists (b :: bs). rewrite Hf, <- app_assoc. simpl.
      split; [reflexivity|]. split; [lia | exact Hr].
    + rewrite He. exists []. rewrite app_nil_r. simpl.
      split; [reflexivity|]. split; [lia|]. right. exists e. reflexivity.
Qed.

End ExportPixels.

Section ExportGrid.
Import Exporter.

Lemma range_length (n : Z) : length (range n) = Z.to_nat n.
Proof. unfold range. rewrite length_map, length_seq. reflexivity. Qed.

Lemma range_nth (n : Z) (k : nat) :
  (k < Z.to_nat n)%nat -> nth_error (range n) k = Some (Z.of_nat k).
Proof.
  intros Hk. unfold range. rewrite nth_error_map.
  rewrite nth_error_seq.
  destruct (Nat.ltb_spec k (Z.to_nat n)) as [_|Hge]; [reflexivity | lia].
Qed.

Lemma In_range (n z : Z) : In z (range n) <-> (0 <= z < n)%Z.
Proof.
  unfold range. rewrite in_map_iff. split.
  - intros (k & <- & Hk). apply in_seq in Hk. lia.
  - intros Hz. exists (Z.to_nat z). split; [lia|]. apply in_seq. lia.
Qed.

Lemma flat_map_nth {A B : Type} (f : A -> list B) (n : nat) (l : list A)
    (i j : nat) (a : A) :
  (forall a, length (f a) = n) -> nth_error l i = Some a -> (j < n)%nat ->
  nth_error (flat_map f l) (i * n + j) = nth_error (f a) j.
Proof.
  intros Hlen. revert i. induction l as [|a0 l IH]; intros i Hi Hj.
  - destruct i; discriminate.
  - destruct i as [|i]; simpl in Hi.
    + injection Hi as ->. simpl.
      apply nth_error_app1. rewrite Hlen. exact Hj.
    + simpl flat_map. rewrite nth_error_app2 by (rewrite Hlen; simpl; lia).
      rewrite Hlen. replace (S i * n + j - n)%nat with (i * n + j)%nat
        by (simpl; lia).
      apply IH; assumption.
Qed.

Lemma flat_map_length_const {A B : Type} (f : A -> list B) (n : nat)
    (l : list A) :
  (forall a, length (f a) = n) -> length (flat_map f l) = (length l * n)%nat.
Proof.
  intros Hlen. induction l as [|a l IH]; simpl; [reflexivity|].
  rewrite length_app, Hlen, IH. reflexivity.
Qed.

Lemma row_length (width y : Z) :
  length (map (fun x => (x, y)) (range width)) = Z.to_nat width.
Proof. rewrite length_map. apply range_length. Qed.

Lemma grid_length (width height : Z) :
  length (grid width height) = (Z.to_nat height * Z.to_nat width)%nat.
Proof.
  unfold grid.
  rewrite (flat_map_length_const _ (Z.to_nat width))
    by (intros; apply row_length).
  rewrite range_length. reflexivity.
Qed.

Lemma In_grid (width height x y : Z) :
  In (x, y) (grid width height) <-> (0 <= x < width /\ 0 <= y < height)%Z.
Proof.
  unfold grid. rewrite in_flat_map. split.
  - intros (y' & Hy & Hx). apply in_map_iff in Hx.
    destruct Hx as (x' & E & Hx). injection E as -> ->.
    apply In_range in Hy. apply In_range in Hx. lia.
  - intros [Hx Hy]. exists y. split; [apply In_range, Hy|].
    apply in_map_iff. exists x. split; [reflexivity | apply In_range, Hx].
Qed.

(** Row-major order: pixel [(x, y)] is visited at position
    [y * width + x]. *)
Lemma grid_nth (width height x y : Z) :
  (0 <= x < width)%Z -> (0 <= y < height)%Z ->
  nth_error (grid width height) (Z.to_nat (y * width + x)) = Some (x, y).
Proof.
  intros Hx Hy. unfold grid.
  replace (Z.to_nat (y * width + x))
    with (Z.to_nat y * Z.to_nat width + Z.to_nat x)%nat by nia.
  rewrite (flat_map_nth (fun y => map (fun x => (x, y)) (range width))
             (Z.to_nat width) (range height) (Z.to_nat y) (Z.to_nat x) y).
  - rewrite nth_error_map, range_nth by lia. simpl. f_equal. f_equal. lia.
  - intros; apply row_length.
  - rewrite range_nth by lia. f_equal. lia.
  - lia.
Qed.

Lemma grid_empty (width height : Z) :
  (width <= 0 \/ height <= 0)%Z -> grid width height = [].
Proof.
  intros Hwh. apply length_zero_iff_nil. rewrite grid_length. nia.
Qed.

Lemma Forall2_nth_error_l {A B : Type} (P : A -> B -> Prop) (l1 : list A)
    (l2 : list B) (k : nat) (a : A) :
  Forall2 P l1 l2 -> nth_error l1 k = Some a ->
  exists b, nth_error l2 k = Some b /\ P a b.
Proof.
  intros HF. revert k. induction HF as [|a0 b0 l1 l2 Hab HF IH]; intros k Hk.
  - destruct k; discriminate.
  - destruct k as [|k]; simpl in *.
    + injection Hk as ->. exists b0. split; [reflexivity | exact Hab].
    + apply IH, Hk.
Qed.

End ExportGrid.

Section ExportSave.
Import Exporter.
Context {T : Type} `{Noise T}.

Lemma store_same (fs : files) (name : String.string) (data : list Byte.byte) :
  store fs name data name = Some data.
Proof. unfold store. rewrite String.eqb_refl. reflexivity. Qed.

Lemma store_other (fs : files) (name other : String.string)
    (data : list Byte.byte) :
  other <> name -> store fs name data other = fs other.
Proof.
  intros Hne. unfold store.
  destruct (String.eqb_spec other name); [contradiction | reflexivity].
Qed.

Lemma save_unfold (fs : files) (noise : T) (width height : Z) (scale : R)
    (filename : String.string) :
  save_noise_image fs noise width height scale filename
  = (store fs filename
       (fst (write_pixels noise scale (grid width height)
               (String.list_byte_of_string (header width height)))),
     snd (write_pixels noise scale (grid width height)
            (String.list_byte_of_string (header width height)))).
Proof.
  unfold save_noise_image. rewrite encode_header.
  destruct (write_pixels _ _ _ _). reflexivity.
Qed.

Lemma save_all (fs : files) (noise : T) (width height : Z) (scale : R)
    (filename : String.string) :
  (forall x y, (0 <= x < width)%Z -> (0 <= y < height)%Z ->
     exists v, noise_sample noise (IZR x * scale) (IZR y * scale) = Return v) ->
  exists pixels,
    save_noise_image fs noise width height scale filename
    = (store fs filename
         (String.list_byte_of_string (header width height) ++ pixels), None)
    /\ Forall2 (fun p b => pixel noise scale (fst p) (snd p) = inr b)
         (grid width height) pixels.
Proof.
  intros Hall.
  destruct (write_pixels_all noise scale (grid width height)
              (String.list_byte_of_string (header width height)))
    as (bs & Hw & HF).
  { intros [x y] Hp. apply In_grid in Hp. destruct Hp as [Hx Hy].
    destruct (Hall x y Hx Hy) as [v Hv].
    destruct (pixel_of_sample noise scale x y v Hv) as (b & Hb & _).
    exists b. exact Hb. }
  exists bs. rewrite save_unfold, Hw. split; [reflexivity | exact HF].
Qed.





(** The first pixel raises: the file keeps the header only. *)
Lemma save_first_raises (fs : files) (noise : T) (width height : Z)
    (scale : R) (filename : String.string) (e : exn) :
  (1 <= width)%Z -> (1 <= height)%Z ->
  noise_sample noise (IZR 0 * scale) (IZR 0 * scale) = Raise e ->
  save_noise_image fs noise width height scale filename
  = (store fs filename (String.list_byte_of_string (header width height)),
     Some (Propagated e)).
Proof.
  intros Hw Hh He. rewrite save_unfold.
  pose proof (grid_nth width height 0 0) as G.
  rewrite Z.mul_0_l, Z.add_0_r in G. specialize (G ltac:(lia) ltac:(lia)).
  destruct (grid width height) as [|p rest]; [discriminate|].
  simpl in G. injection G as ->.
  simpl. rewrite (pixel_raises noise scale 0 0 e He). reflexivity.
Qed.

End ExportSave.

Section ExportWitnesses.
Import Exporter.




End ExportWitnesses.

Section ExportFields.
Import Exporter.

Lemma quantize_half : quantize 0.5 = 127%Z.
Proof.
  unfold quantize. rewrite clamp01_id by lra. apply floor_unique. lra.
Qed.

Lemma byte_127 (b : Byte.byte) : Z.of_N (Byte.to_N b) = 127%Z -> b = Byte.x7f.
Proof.
  intros H. pose proof (Byte.of_to_N b) as E.
  replace (Byte.to_N b) with 127%N in E by lia.
  simpl in E. injection E as <-. reflexivity.
Qed.

Lemma Forall2_constant {A B : Type} (c : B) (l1 : list A) (l2 : list B) :
  Forall2 (fun _ b => b = c) l1 l2 -> l2 = repeat c (length l1).
Proof.
  intros HF. induction HF as [|a b l1 l2 Hb HF IH]; simpl;
    [reflexivity | rewrite Hb, IH; reflexivity].
Qed.

Lemma Forall2_weaken {A B : Type} (P Q : A -> B -> Prop) (l1 : list A)
    (l2 : list B) :
  (forall a b, In a l1 -> P a b -> Q a b) -> Forall2 P l1 l2 ->
  Forall2 Q l1 l2.
Proof.
  intros HPQ HF. induction HF as [|a b l1 l2 Hab HF IH]; constructor.
  - apply HPQ; [left; reflexivity | exact Hab].
  - apply IH. intros a' b' Ha'. apply HPQ. right. exact Ha'.
Qed.

Lemma save_constant_half {T : Type} `{Noise T} (fs : files) (noise : T)
    (width height : Z) (scale : R) (filename : String.string) :
  (forall x y, (0 <= x < width)%Z -> (0 <= y < height)%Z ->
     noise_sample noise (IZR x * scale) (IZR y * scale) = Return 0.5) ->
  save_noise_image fs noise width height scale filename
  = (store fs filename
       (String.list_byte_of_string (header width height)
        ++ repeat Byte.x7f (Z.to_nat height * Z.to_nat width)), None).
Proof.
  intros Hall.
  destruct (save_all fs noise width height scale filename) as (pixels & Hs & HF).
  { intros x y Hx Hy. exists 0.5. apply Hall; assumption. }
  rewrite Hs. do 3 f_equal. rewrite <- grid_length.
  apply Forall2_constant.
  eapply Forall2_weaken; [|exact HF].
  intros [x y] b Hp Hb. simpl in Hb.
  apply In_grid in Hp. destruct Hp as [Hx Hy].
  destruct (pixel_of_sample noise scale x y 0.5 (Hall x y Hx Hy))
    as (b' & Hb' & E).
  rewrite Hb in Hb'. injection Hb' as <-.
  apply byte_127. rewrite E. apply quantize_half.
Qed.


Lemma perlin_sample_lattice (self : PerlinNoise2D.t) (ix iy : Z) :
  PerlinNoise2D.sample self (IZR ix) (IZR iy) = 0.5.
Proof.
  rewrite perlin_sample_clamp, interpolated_lattice.
  replace (0 * 0.5 + 0.5) with 0.5 by lra. apply clamp01_id. lra.
Qed.

Lemma perlin_integer_scale (seed k x y : Z) :
  noise_sample (PerlinNoise2D.init seed) (IZR x * IZR k) (IZR y * IZR k)
  = Return 0.5.
Proof.
  unfold noise_sample, perlin_noise. rewrite <- !mult_IZR.
  f_equal. apply perlin_sample_lattice.
Qed.





End ExportFields.

Section ExportMain.
Import Exporter.
Import String.
Local Open Scope string_scope.

Lemma header_512 :
  list_byte_of_string (header 512 512)
  = [Byte.x50; Byte.x35; Byte.x0a;
     Byte.x35; Byte.x31; Byte.x32; Byte.x20; Byte.x35; Byte.x31; Byte.x32;
     Byte.x0a; Byte.x32; Byte.x35; Byte.x35; Byte.x0a].
Proof. vm_compute. reflexivity. Qed.

Lemma main_pixels_length {A B : Type} (P : A -> B -> Prop)
    (pixels : list B) (todo : list A) :
  List.length todo = (Z.to_nat 512 * Z.to_nat 512)%nat ->
  Forall2 P todo pixels -> Z.of_nat (List.length pixels) = 262144%Z.
Proof. intros Hg HF. rewrite <- (Forall2_length HF), Hg. lia. Qed.


End ExportMain.

Section ExportOutcomeWitness.
Import Exporter.


End ExportOutcomeWitness.
